(** * Breed resolution engine of [main.py]

    A shallow embedding of [load_breeds_cache], [search_breeds] and
    [resolve_breed_code], and the properties of the resolution engine
    that are stated for them.

    Conventions of the embedding.
    - A Python [str] is a [string]; its characters are the code points
      below 256 (Latin-1), for which [str.lower] and the whitespace set of
      [str.strip] are written out below.
    - A Python [dict] is an association list in insertion order; assigning
      to a key that is present replaces its value in place, assigning to a
      new key appends it ([dict_set]).
    - The process-wide [BREEDS_CACHE] and the breed file are fields of an
      explicit [world]; functions that touch them live in the monad [M].
    - [rapidfuzz] is a third-party library: the scorer is a parameter of
      the matcher, [extract] follows its documented behaviour.
    - The two [print] calls of [resolve_breed_code]/[get_policy] write to
      standard output only and are left out. *)

From Stdlib Require Import String Ascii List Bool Arith ZArith QArith Lia.
From Stdlib Require Import DecimalString Sorted Permutation.
Import ListNotations.

Close Scope Q_scope.
Local Open Scope string_scope.
Local Open Scope list_scope.

(** ** Python string operations *)

Module PyStr.
Local Open Scope nat_scope.

(** Code point of a character. *)
Definition ord (c : ascii) : nat := nat_of_ascii c.

(** [str.isspace] on one character: TAB..CR, FS..US, space, NEL, NBSP. *)
Definition is_space (c : ascii) : bool :=
  let n := ord c in
  ((9 <=? n) && (n <=? 13)) || ((28 <=? n) && (n <=? 32))
  || (n =? 133) || (n =? 160).

(** [str.lower] on one character: A-Z and the Latin-1 capitals
    (U+00C0..U+00DE except the multiplication sign U+00D7). *)
Definition lower_char (c : ascii) : ascii :=
  let n := ord c in
  if ((65 <=? n) && (n <=? 90))
     || ((192 <=? n) && (n <=? 222) && negb (n =? 215))
  then ascii_of_nat (n + 32) else c.

(** Upper-casing of one character, for the letters whose capital is
    again a single Latin-1 character (it is not for U+00B5, U+00DF and
    U+00FF, which are left as they are). *)
Definition upper_char (c : ascii) : ascii :=
  let n := ord c in
  if ((97 <=? n) && (n <=? 122))
     || ((224 <=? n) && (n <=? 254) && negb (n =? 247))
  then ascii_of_nat (n - 32) else c.

Fixpoint lower (s : string) : string :=
  match s with
  | EmptyString => EmptyString
  | String c t => String (lower_char c) (lower t)
  end.

(** [str.capitalize]: first character upper-cased, the rest lower-cased. *)
Definition capitalize (s : string) : string :=
  match s with
  | EmptyString => EmptyString
  | String c t => String (upper_char c) (lower t)
  end.

Fixpoint lstrip (s : string) : string :=
  match s with
  | EmptyString => EmptyString
  | String c t => if is_space c then lstrip t else s
  end.

Fixpoint rstrip (s : string) : string :=
  match s with
  | EmptyString => EmptyString
  | String c t =>
      match rstrip t with
      | EmptyString => if is_space c then EmptyString else String c EmptyString
      | t' => String c t'
      end
  end.

(** [str.strip()] with no argument. *)
Definition strip (s : string) : string := rstrip (lstrip s).

(** [s.startswith(p)]. *)
Definition startswith (s p : string) : bool := String.prefix p s.

(** [needle in hay] on strings: substring test. *)
Fixpoint contains (needle hay : string) : bool :=
  String.prefix needle hay
  || match hay with
     | EmptyString => false
     | String _ t => contains needle t
     end.

(** Truth value of a string: [not s] holds for the empty string only. *)
Definition truthy (s : string) : bool :=
  match s with EmptyString => false | _ => true end.

(** A string made of whitespace only (the empty string included). *)
Fixpoint all_space (s : string) : bool :=
  match s with
  | EmptyString => true
  | String c t => is_space c && all_space t
  end.

(** [str(n)] for a non-negative integer, as an f-string prints it. *)
Definition of_nat (n : nat) : string :=
  NilZero.string_of_uint (Nat.to_uint n).

End PyStr.

(** ** Python dictionaries, in insertion order *)

Section Dict.
Context {V : Type}.

Definition dict := list (string * V).

(** [d.get(k)] *)
Fixpoint dict_get (k : string) (d : dict) : option V :=
  match d with
  | [] => None
  | (k', v) :: d' => if String.eqb k' k then Some v else dict_get k d'
  end.

(** [d[k] = v]: an existing key keeps its position, a new key goes last. *)
Fixpoint dict_set (k : string) (v : V) (d : dict) : dict :=
  match d with
  | [] => [(k, v)]
  | (k', v') :: d' =>
      if String.eqb k' k then (k', v) :: d' else (k', v') :: dict_set k v d'
  end.

(** [d.keys()] *)
Definition dict_keys (d : dict) : list string := map fst d.

End Dict.
Arguments dict : clear implicits.

(** ** Data model *)

(** One entry of the breed file: a JSON object whose ["label"] and
    ["providers"] members may be absent. *)
Record breed_data := {
  bd_label : option string;
  bd_providers : option (dict string)
}.

(** The parsed breed file: breed key to entry, in file order. *)
Definition table := dict breed_data.

Inductive match_type := exact | partial | fuzzy.

(** An element of the ["matches"] list of [search_breeds]. *)
Module Match.
Record t := {
    key : string;
    label : string;
    breed_id : string;
    match_type : match_type;
    score : option Q
}.
End Match.

(** A value of the [breed_labels] dictionary of the fuzzy pass. *)
Module Info.
Record t := {
    key : string;
    breed_id : string;
    label : string
}.
End Info.

(** The dictionary returned by [search_breeds]. *)
Record search_result := {
  matches : list Match.t;
  count : nat
}.

(** [breed_data.get("label", "")] *)
Definition label_of (bd : breed_data) : string :=
  match bd_label bd with Some l => l | None => "" end.

(** [breed_data.get("providers", {})] *)
Definition providers_of (bd : breed_data) : dict string :=
  match bd_providers bd with Some p => p | None => [] end.

(** [providers.get("HealthyPaws")] *)
Definition healthy_paws_value (bd : breed_data) : option string :=
  dict_get "HealthyPaws" (providers_of bd).

(** [providers.get("PrudentPet", "")] *)
Definition prudent_pet_value (bd : breed_data) : string :=
  match dict_get "PrudentPet" (providers_of bd) with
  | Some v => v
  | None => ""
  end.

(** [f"{species_type.capitalize()}~"] *)
Definition species_prefix (species_type : string) : string :=
  PyStr.capitalize species_type ++ "~".

(** The two guards shared by both passes of [search_breeds]: a truthy
    HealthyPaws identifier, whose value is returned, and a PrudentPet
    identifier that starts with the species prefix. *)
Definition eligible_id (prefix : string) (bd : breed_data) : option string :=
  match healthy_paws_value bd with
  | Some hp =>
      if PyStr.truthy hp && PyStr.startswith (prudent_pet_value bd) prefix
      then Some hp else None
  | None => None
  end.

(** ** Fuzzy scoring: the part played by [rapidfuzz] *)

(** An element of the list returned by [process.extract]:
    [(choice, score, index)]. *)
Definition hit : Type := string * Q * nat.

Definition hit_label (h : hit) : string := fst (fst h).
Definition hit_score (h : hit) : Q := snd (fst h).

(** Insertion below the hits that score strictly more: a hit goes in front
    of the first one whose score does not exceed its own. *)
Fixpoint insert_desc (h : hit) (l : list hit) : list hit :=
  match l with
  | [] => [h]
  | h' :: l' =>
      if Qle_bool (hit_score h') (hit_score h) then h :: l
      else h' :: insert_desc h l'
  end.

(** Stable sort by descending score. *)
Definition sort_desc (l : list hit) : list hit := fold_right insert_desc [] l.

(** Modelled from the spec: [rapidfuzz.process.extract], a third-party
    library function absent from the repository, called with
    [scorer=fuzz.token_sort_ratio] and [limit=5].  Every choice is scored
    against the query; the spec has "Take the top 5 labels by score" and
    "descending score order, ties broken by original label encounter
    order". *)
Definition extract (scorer : string -> string -> Q) (query : string)
    (choices : list string) (limit : nat) : list hit :=
  firstn limit
    (sort_desc
       (map (fun ci => (fst ci, scorer query (fst ci), snd ci))
            (combine choices (seq 0 (length choices))))).

(** [str.split()] with no argument: the maximal runs of non-whitespace.
    [cur] is the token being read. *)
Fixpoint split_ws (cur s : string) : list string :=
  match s with
  | EmptyString => if PyStr.truthy cur then [cur] else []
  | String c t =>
      if PyStr.is_space c
      then (if PyStr.truthy cur then cur :: split_ws "" t else split_ws "" t)
      else split_ws (cur ++ String c "") t
  end.

Fixpoint insert_token (x : string) (l : list string) : list string :=
  match l with
  | [] => [x]
  | y :: l' => if String.leb x y then x :: l else y :: insert_token x l'
  end.

(** [" ".join(sorted(s.split()))] *)
Definition sorted_tokens (s : string) : string :=
  String.concat " " (fold_right insert_token [] (split_ws "" s)).

(** Length of a longest common subsequence. *)
Fixpoint lcs (a b : list ascii) : nat :=
  match a with
  | [] => 0
  | x :: a' =>
      (fix inner (b : list ascii) : nat :=
         match b with
         | [] => 0
         | y :: b' =>
             if Ascii.eqb x y then S (lcs a' b')
             else Nat.max (lcs a' b) (inner b')
         end) b
  end.

(** Modelled from the spec: [rapidfuzz.fuzz.token_sort_ratio], absent from
    the repository; the spec has "a normalized edit/alignment similarity
    over the multiset of whitespace-separated tokens in each string,
    scored 0-100, symmetric under token reordering".  Here: the normalized
    insertion/deletion similarity [200 * lcs / (len1 + len2)] of the two
    strings after their tokens are sorted and joined by one space, with no
    other preprocessing.  It serves the concrete examples only; the
    properties below hold for every scorer. *)
Definition token_sort_ratio (s1 s2 : string) : Q :=
  let a := list_ascii_of_string (sorted_tokens s1) in
  let b := list_ascii_of_string (sorted_tokens s2) in
  match (length a + length b)%nat with
  | O => Qmake 100 1
  | S n => Qmake (Z.of_nat (200 * lcs a b)) (Pos.of_succ_nat n)
  end.

(** [score > 70] *)
Definition above_70 (score : Q) : bool := negb (Qle_bool score (Qmake 70 1)).

(** ** [search_breeds] on a loaded table *)

Section Matcher.

Variable scorer : string -> string -> Q.

(** Body of the first loop for one item of [breeds.items()]: [None] when
    the record is skipped or matches neither way. *)
Definition scan_record (breed_name_lower prefix : string)
    (item : string * breed_data) : option Match.t :=
  let (breed_key, breed_data) := item in
  let label := label_of breed_data in
  match eligible_id prefix breed_data with
  | None => None
  | Some hp =>
      if String.eqb (PyStr.lower label) breed_name_lower
         || String.eqb breed_key breed_name_lower
      then Some {| Match.key := breed_key; Match.label := label;
                   Match.breed_id := hp; Match.match_type := exact;
                   Match.score := None |}
      else if PyStr.contains breed_name_lower (PyStr.lower label)
              || PyStr.contains breed_name_lower breed_key
      then Some {| Match.key := breed_key; Match.label := label;
                   Match.breed_id := hp; Match.match_type := partial;
                   Match.score := None |}
      else None
  end.

(** The first loop: one pass over the table, appending in table order. *)
Fixpoint scan (breed_name_lower prefix : string) (breeds : table)
    : list Match.t :=
  match breeds with
  | [] => []
  | item :: rest =>
      match scan_record breed_name_lower prefix item with
      | Some m => m :: scan breed_name_lower prefix rest
      | None => scan breed_name_lower prefix rest
      end
  end.

(** Body of the second loop: [breed_labels[label] = {...}] for an eligible
    record. *)
Definition add_label (prefix : string) (breed_labels : dict Info.t)
    (item : string * breed_data) : dict Info.t :=
  let (breed_key, breed_data) := item in
  match eligible_id prefix breed_data with
  | Some hp =>
      dict_set (label_of breed_data)
        {| Info.key := breed_key; Info.breed_id := hp;
           Info.label := label_of breed_data |}
        breed_labels
  | None => breed_labels
  end.

(** The second loop, starting from the empty dictionary. *)
Definition build_labels (prefix : string) (breeds : table) : dict Info.t :=
  fold_left (add_label prefix) breeds [].

(** Body of the loop over [fuzzy_results].  [breed_labels[match_label]]
    cannot raise [KeyError]: [extract] returns members of
    [breed_labels.keys()] (lemma [fuzzy_lookup_total]). *)
Definition fuzzy_match (breed_labels : dict Info.t) (h : hit)
    : list Match.t :=
  let '(match_label, score, _) := h in
  if above_70 score then
    match dict_get match_label breed_labels with
    | Some breed_info =>
        [ {| Match.key := Info.key breed_info;
             Match.label := Info.label breed_info;
             Match.breed_id := Info.breed_id breed_info;
             Match.match_type := fuzzy;
             Match.score := Some score |} ]
    | None => []
    end
  else [].

(** The fuzzy pass, run when the first loop appended nothing. *)
Definition fuzzy_pass (breed_name prefix : string) (breeds : table)
    : list Match.t :=
  let breed_labels := build_labels prefix breeds in
  match breed_labels with
  | [] => []
  | _ :: _ =>
      flat_map (fuzzy_match breed_labels)
        (extract scorer breed_name (dict_keys breed_labels) 5)
  end.

(** [search_breeds] once [load_breeds_cache()] has returned [breeds]. *)
Definition search_breeds_on (breeds : table)
    (breed_name species_type : string) : search_result :=
  let breed_name_lower := PyStr.strip (PyStr.lower breed_name) in
  let prefix := species_prefix species_type in
  let found := scan breed_name_lower prefix breeds in
  let found :=
    match found with
    | [] => fuzzy_pass breed_name prefix breeds
    | _ :: _ => found
    end in
  {| matches := found; count := length found |}.

End Matcher.

(** ** Process state, exceptions and the monad of the stateful functions *)

(** What a call can raise: the [HTTPException]s of [resolve_breed_code],
    the failure of [open]/[json.load] in [load_breeds_cache], and the
    [IndexError] of [matches[0]]. *)
Inductive exn :=
| HTTPException (status_code : Z) (detail : string)
| LoadError
| IndexError.

Inductive result (A : Type) :=
| Ok (a : A)
| Raise (e : exn).
Arguments Ok {A} a.
Arguments Raise {A} e.

(** [disk] is what [json.load] yields for the file at [BREEDS_PATH]
    ([None]: the file cannot be opened or parsed); [BREEDS_CACHE] is the
    module-level global; [reads] counts the times the file was opened. *)
Record world := {
  disk : option table;
  BREEDS_CACHE : option table;
  reads : nat
}.

Definition M (A : Type) : Type := world -> result A * world.

Definition ret {A} (a : A) : M A := fun w => (Ok a, w).

Definition raise {A} (e : exn) : M A := fun w => (Raise e, w).

Definition bind {A B} (c : M A) (k : A -> M B) : M B :=
  fun w =>
    match c w with
    | (Ok a, w') => k a w'
    | (Raise e, w') => (Raise e, w')
    end.

Notation "x <- c ;; k" := (bind c (fun x => k))
  (at level 61, c at next level, right associativity).

(** [load_breeds_cache]: the file is opened and parsed only while the
    global is [None]. *)
Definition load_breeds_cache : M table :=
  fun w =>
    match BREEDS_CACHE w with
    | Some breeds => (Ok breeds, w)
    | None =>
        match disk w with
        | Some breeds =>
            (Ok breeds,
             {| disk := disk w; BREEDS_CACHE := Some breeds;
                reads := S (reads w) |})
        | None =>
            (Raise LoadError,
             {| disk := disk w; BREEDS_CACHE := None;
                reads := S (reads w) |})
        end
    end.

(** ** [resolve_breed_code] *)

(** An element of ["options"] in the multiple-matches dictionary. *)
Module Opt.
Record t := {
  label : string;
  key : string;
  match_type : match_type
}.
End Opt.

(** The dictionary returned by [resolve_breed_code]. *)
Inductive resolution :=
| single (breed_id label key : string)
| multiple (count : nat) (options : list Opt.t) (message : string).

Definition option_of (m : Match.t) : Opt.t :=
  {| Opt.label := Match.label m; Opt.key := Match.key m;
     Opt.match_type := Match.match_type m |}.

Definition not_found_detail (breed_name species : string) : string :=
  "No breeds found matching '" ++ breed_name ++ "' for " ++ species.

Definition multiple_message (n : nat) (breed_name : string) : string :=
  "Found " ++ PyStr.of_nat n ++ " breeds matching '" ++ breed_name
  ++ "'. Please specify which breed you meant.".

Section Engine.

Variable scorer : string -> string -> Q.

Definition search_breeds (breed_name species_type : string)
    : M search_result :=
  breeds <- load_breeds_cache ;;
  ret (search_breeds_on scorer breeds breed_name species_type).

(** The three-way branch on [search_result["count"]]. *)
Definition route (breed_name species : string) (search_result : search_result)
    : M resolution :=
  if Nat.eqb (count search_result) 0 then
    raise (HTTPException 404 (not_found_detail breed_name species))
  else if Nat.eqb (count search_result) 1 then
    match matches search_result with
    | m :: _ =>
        ret (single (Match.breed_id m) (Match.label m) (Match.key m))
    | [] => raise IndexError
    end
  else
    ret (multiple (count search_result)
           (map option_of (matches search_result))
           (multiple_message (count search_result) breed_name)).

Definition resolve_breed_code (species_type breed_name : string)
    : M resolution :=
  if negb (PyStr.truthy species_type) then
    raise (HTTPException 400 "Species type is required")
  else
    let species := PyStr.lower species_type in
    if negb (String.eqb species "dog" || String.eqb species "cat") then
      raise (HTTPException 404 "Species must be 'dog' or 'cat'")
    else if negb (PyStr.truthy breed_name) then
      raise (HTTPException 400 "Breed name is required")
    else
      search_result <- search_breeds breed_name species ;;
      route breed_name species search_result.

End Engine.

(** ** [get_policy]

    The body of the [try] block (reading the credentials, formatting the
    URL, the age computed from today's date, the HTTPS exchange) depends
    on the network and the clock; it is the parameter [quote], which
    yields the reply dictionary or the text [str(e)] of the exception
    caught by [except Exception as e].  That the block was entered is
    recorded in the state, so that a path which never reaches the
    provider can be told from one that does. *)

(** [str(b)] for a Python [bool]. *)
Definition str_of_bool (b : bool) : string := if b then "True" else "False".

(** The values that the [try] block of [get_policy] works with. *)
Record quote_request := {
  q_date_of_birth : string;
  q_gender : string;
  q_species_type : string;
  q_spayed_or_neutured : bool;
  q_zip_code : string;
  q_state_code : string;
  q_pet_name : string;
  q_email : string;
  q_breed_id : string;
  q_label : string;
  q_formatted_breed : string
}.

(** What [get_policy] returns: the ["multiple_breeds_found"] dictionary,
    or the dictionary built from the provider's reply. *)
Inductive policy (R : Type) :=
| multiple_breeds_found (message : string) (count : nat)
    (breeds : list Opt.t) (instruction : string)
| quoted (reply : R).
Arguments multiple_breeds_found {R} message count breeds instruction.
Arguments quoted {R} reply.

Definition rerun_instruction : string :=
  "Please re-run the query with one of the following exact breed labels as the breed_name".

(** The state [get_policy] runs in: the process state of the functions
    above, and the requests for which the [try] block was entered, oldest
    first. *)
Record session := {
  process : world;
  quote_runs : list quote_request
}.

Definition P (A : Type) : Type := session -> result A * session.

Definition retP {A} (a : A) : P A := fun s => (Ok a, s).

Definition raiseP {A} (e : exn) : P A := fun s => (Raise e, s).

Definition bindP {A B} (c : P A) (k : A -> P B) : P B :=
  fun s =>
    match c s with
    | (Ok a, s') => k a s'
    | (Raise e, s') => (Raise e, s')
    end.

Notation "x <~ c ;; k" := (bindP c (fun x => k))
  (at level 61, c at next level, right associativity).

(** A function of the process state, called from [get_policy]. *)
Definition on_process {A} (c : M A) : P A :=
  fun s =>
    match c (process s) with
    | (r, w') => (r, {| process := w'; quote_runs := quote_runs s |})
    end.

Section Policy.

Variable scorer : string -> string -> Q.
Variable R : Type.
Variable quote : quote_request -> string + R.

(** The [try] ... [except] block: the request is recorded, then the
    exchange yields its reply or its exception becomes a 500. *)
Definition run_quote (request : quote_request) : P R :=
  fun s =>
    let s' := {| process := process s;
                 quote_runs := quote_runs s ++ [request] |} in
    match quote request with
    | inr reply => (Ok reply, s')
    | inl text => (Raise (HTTPException 500 text), s')
    end.

Definition get_policy (date_of_birth gender species_type breed_name : string)
    (spayed_or_neutured : bool)
    (zip_code state_code pet_name email : string) : P (policy R) :=
  breed_info <~ on_process (resolve_breed_code scorer species_type breed_name) ;;
  match breed_info with
  | multiple n options message =>
      retP (multiple_breeds_found message n options rerun_instruction)
  | single breed_id label formatted_breed =>
      if negb (PyStr.truthy date_of_birth) then
        raiseP (HTTPException 400 "Date of birth is required")
      else if negb (PyStr.truthy gender)
              || negb (String.eqb (PyStr.lower gender) "male"
                       || String.eqb (PyStr.lower gender) "female") then
        raiseP (HTTPException 400
                  "Gender is required and must be 'male' or 'female'")
      else if negb (String.eqb
                      (PyStr.lower (str_of_bool spayed_or_neutured)) "true"
                    || String.eqb
                         (PyStr.lower (str_of_bool spayed_or_neutured))
                         "false") then
        raiseP (HTTPException 400
                  "Spayed or neutured is required and must be 'true' or 'false'")
      else if negb (PyStr.truthy zip_code) then
        raiseP (HTTPException 400 "Zip code is required")
      else
        reply <~ run_quote {| q_date_of_birth := date_of_birth;
                              q_gender := gender;
                              q_species_type := species_type;
                              q_spayed_or_neutured := spayed_or_neutured;
                              q_zip_code := zip_code;
                              q_state_code := state_code;
                              q_pet_name := pet_name;
                              q_email := email;
                              q_breed_id := breed_id;
                              q_label := label;
                              q_formatted_breed := formatted_breed |} ;;
        retP (quoted reply)
  end.

End Policy.

(** ** The outcomes of the resolution engine

    The engine's outcomes, to which the dictionaries and exceptions of
    [resolve_breed_code] are mapped: the message texts are dropped, the
    exceptions are told apart by status code and detail. *)

Inductive failure :=
| InvalidSpecies
| InvalidQuery
| NotFound
| DataUnavailable
| OtherFailure.

Inductive ResolutionResult :=
| Resolved (breedId label key : string)
| Ambiguous (count : nat) (options : list Opt.t)
| Failed (f : failure).

Definition classify (e : exn) : failure :=
  match e with
  | HTTPException code detail =>
      if (Z.eqb code 400 && String.eqb detail "Species type is required")
         || (Z.eqb code 404
             && String.eqb detail "Species must be 'dog' or 'cat'")
      then InvalidSpecies
      else if Z.eqb code 400 && String.eqb detail "Breed name is required"
      then InvalidQuery
      else if Z.eqb code 404
              && String.prefix "No breeds found matching '" detail
      then NotFound
      else OtherFailure
  | LoadError => DataUnavailable
  | IndexError => OtherFailure
  end.

Definition outcome (r : result resolution) : ResolutionResult :=
  match r with
  | Ok (single breed_id label key) => Resolved breed_id label key
  | Ok (multiple n options _) => Ambiguous n options
  | Raise e => Failed (classify e)
  end.

(** A query as the spec calls blank: empty once trimmed. *)
Definition blank (query : string) : bool :=
  negb (PyStr.truthy (PyStr.strip query)).

(** ** Example data *)

Definition dog_record (label hp : string) : breed_data :=
  {| bd_label := Some label;
     bd_providers := Some [("HealthyPaws", hp); ("PrudentPet", ("Dog~" ++ label)%string)] |}.

Definition cat_record (label hp : string) : breed_data :=
  {| bd_label := Some label;
     bd_providers := Some [("HealthyPaws", hp); ("PrudentPet", ("Cat~" ++ label)%string)] |}.

(** A label that is a substring of another record's label. *)
Definition poodles : table :=
  [ ("poodle", dog_record "Poodle" "101");
    ("toy-poodle", dog_record "Toy Poodle" "102") ].

(** Two eligible records that share one label. *)
Definition twins : table :=
  [ ("poodle-a", dog_record "poodle" "11");
    ("poodle-b", dog_record "poodle" "22") ].

(** A single eligible dog, and a cat with the same label. *)
Definition kennel : table :=
  [ ("labrador-retriever", dog_record "Labrador Retriever" "7");
    ("labrador-cat", cat_record "Labrador Retriever" "8") ].

(** An eligible dog whose entry has no ["label"] member. *)
Definition unlabelled : table :=
  [ ("mixed", {| bd_label := None;
                 bd_providers := Some [("HealthyPaws", "5"); ("PrudentPet", "Dog~Mixed")] |}) ].

(** A cold process whose breed file parses to [breeds]. *)
Definition cold (breeds : table) : world :=
  {| disk := Some breeds; BREEDS_CACHE := None; reads := 0 |}.

(** The same process after its first successful load. *)
Definition warm (breeds : table) : world :=
  {| disk := Some breeds; BREEDS_CACHE := Some breeds; reads := 1 |}.

(** A cold process whose breed file cannot be read. *)
Definition offline : world :=
  {| disk := None; BREEDS_CACHE := None; reads := 0 |}.

(** A request with no quote exchange behind it yet. *)
Definition fresh (w : world) : session :=
  {| process := w; quote_runs := [] |}.

(** The candidates met in the examples. *)
Definition poodle_exact : Match.t :=
  {| Match.key := "poodle"; Match.label := "Poodle"; Match.breed_id := "101";
     Match.match_type := exact; Match.score := None |}.

Definition toy_poodle_partial : Match.t :=
  {| Match.key := "toy-poodle"; Match.label := "Toy Poodle";
     Match.breed_id := "102"; Match.match_type := partial;
     Match.score := None |}.

Definition poodle_b_fuzzy : Match.t :=
  {| Match.key := "poodle-b"; Match.label := "poodle"; Match.breed_id := "22";
     Match.match_type := fuzzy; Match.score := Some (Qmake 1000 12) |}.

Definition labrador_exact : Match.t :=
  {| Match.key := "labrador-retriever"; Match.label := "Labrador Retriever";
     Match.breed_id := "7"; Match.match_type := exact; Match.score := None |}.

Definition mixed_exact : Match.t :=
  {| Match.key := "mixed"; Match.label := ""; Match.breed_id := "5";
     Match.match_type := exact; Match.score := None |}.

(** ** Vocabulary of the properties *)

(** [species_type] passes the species check of [resolve_breed_code]. *)
Definition valid_species (species_type : string) : Prop :=
  PyStr.lower species_type = "dog" \/ PyStr.lower species_type = "cat".

(** The table holds, under [key], a record with this label whose
    HealthyPaws identifier is the non-empty [breed_id] and whose PrudentPet
    identifier starts with [prefix]. *)
Definition eligible_record (prefix : string) (breeds : table)
    (key label breed_id : string) : Prop :=
  exists bd,
    In (key, bd) breeds /\ label_of bd = label
    /\ healthy_paws_value bd = Some breed_id /\ breed_id <> ""
    /\ PyStr.startswith (prudent_pet_value bd) prefix = true.

(** The record matches the normalized query exactly. *)
Definition exact_hit (query_lower key label : string) : Prop :=
  PyStr.lower label = query_lower \/ key = query_lower.

(** The normalized query occurs in the lower-cased label or in the key. *)
Definition partial_hit (query_lower key label : string) : Prop :=
  PyStr.contains query_lower (PyStr.lower label) = true
  \/ PyStr.contains query_lower key = true.

(** Hit [a] scores at least as much as hit [b]. *)
Definition hit_ge (a b : hit) : Prop := Qle (hit_score b) (hit_score a).

(** Scores from high to low. *)
Definition descending (scores : list Q) : Prop :=
  StronglySorted (fun a b => Qle b a) scores.

(** The first eligible record of the table that carries [label]. *)
Fixpoint first_labelled (prefix label : string) (breeds : table)
    : option Info.t :=
  match breeds with
  | [] => None
  | (k, bd) :: rest =>
      match eligible_id prefix bd with
      | Some hp =>
          if String.eqb (label_of bd) label
          then Some {| Info.key := k; Info.breed_id := hp;
                       Info.label := label_of bd |}
          else first_labelled prefix label rest
      | None => first_labelled prefix label rest
      end
  end.

(** The last eligible record of the table that carries [label]. *)
Fixpoint last_labelled (prefix label : string) (breeds : table)
    : option Info.t :=
  match breeds with
  | [] => None
  | (k, bd) :: rest =>
      match last_labelled prefix label rest with
      | Some i => Some i
      | None =>
          match eligible_id prefix bd with
          | Some hp =>
              if String.eqb (label_of bd) label
              then Some {| Info.key := k; Info.breed_id := hp;
                           Info.label := label_of bd |}
              else None
          | None => None
          end
      end
  end.

(** The decision table of the spec on the match list: none, one, many. *)
Definition decision (found : list Match.t) : ResolutionResult :=
  match found with
  | [] => Failed NotFound
  | [m] => Resolved (Match.breed_id m) (Match.label m) (Match.key m)
  | _ :: _ :: _ => Ambiguous (length found) (map option_of found)
  end.

(** The candidate that the first loop appends for a record when the
    normalized query is empty. *)
Definition blank_candidate (k : string) (bd : breed_data) (hp : string)
    : Match.t :=
  {| Match.key := k; Match.label := label_of bd; Match.breed_id := hp;
     Match.match_type :=
       if String.eqb (label_of bd) "" || String.eqb k "" then exact
       else partial;
     Match.score := None |}.

(** [l1] is [l2] with some elements left out, the order kept. *)
Inductive subseq {A : Type} : list A -> list A -> Prop :=
| subseq_nil : subseq [] []
| subseq_skip (x : A) (l1 l2 : list A) : subseq l1 l2 -> subseq l1 (x :: l2)
| subseq_keep (x : A) (l1 l2 : list A) :
    subseq l1 l2 -> subseq (x :: l1) (x :: l2).

(** The labels of the table, entry by entry. *)
Definition table_labels (breeds : table) : list string :=
  map (fun item => label_of (snd item)) breeds.

(** The labels of the eligible records of the species, entry by entry. *)
Definition eligible_labels (prefix : string) (breeds : table) : list string :=
  flat_map (fun item =>
              match eligible_id prefix (snd item) with
              | Some _ => [label_of (snd item)]
              | None => []
              end) breeds.

(** A list without its repetitions: every element at the place of its
    first occurrence. *)
Fixpoint first_occurrences (l : list string) : list string :=
  match l with
  | [] => []
  | x :: t => x :: filter (fun y => negb (String.eqb y x)) (first_occurrences t)
  end.

(** An answer to a quote request, for the examples. *)
Definition quote_ok (r : quote_request) : string + string :=
  inr (q_breed_id r).

(** * Properties *)

(** ** Strings *)

Lemma is_space_lower_char (c : ascii) :
  PyStr.is_space (PyStr.lower_char c) = PyStr.is_space c.
Proof.
  destruct c as [[] [] [] [] [] [] [] []]; reflexivity.
Qed.

Lemma all_space_lower (s : string) :
  PyStr.all_space (PyStr.lower s) = PyStr.all_space s.
Proof.
  induction s as [|c s IH]; simpl.
  - reflexivity.
  - now rewrite is_space_lower_char, IH.
Qed.

Lemma lstrip_all_space (s : string) :
  PyStr.all_space s = true -> PyStr.lstrip s = "".
Proof.
  induction s as [|c s IH]; simpl; intros H.
  - reflexivity.
  - apply andb_true_iff in H as [Hc Hs]. rewrite Hc. now apply IH.
Qed.

(** A whitespace-only query is normalized to the empty string. *)
Lemma strip_lower_all_space (s : string) :
  PyStr.all_space s = true -> PyStr.strip (PyStr.lower s) = "".
Proof.
  intros H. unfold PyStr.strip.
  rewrite lstrip_all_space; [reflexivity | now rewrite all_space_lower].
Qed.

Lemma rstrip_empty_all_space (s : string) :
  PyStr.rstrip s = "" -> PyStr.all_space s = true.
Proof.
  induction s as [|c s IH]; simpl.
  - reflexivity.
  - destruct (PyStr.rstrip s) eqn:E.
    + destruct (PyStr.is_space c); [intros _; now apply IH | discriminate].
    + discriminate.
Qed.

Lemma lstrip_all_space_inv (s : string) :
  PyStr.all_space (PyStr.lstrip s) = true -> PyStr.all_space s = true.
Proof.
  induction s as [|c s IH]; simpl.
  - reflexivity.
  - destruct (PyStr.is_space c) eqn:E; simpl.
    + exact IH.
    + rewrite E. discriminate.
Qed.

(** [blank] is: made of whitespace only. *)
Lemma blank_all_space (s : string) :
  blank s = true <-> PyStr.all_space s = true.
Proof.
  unfold blank, PyStr.strip. split; intros H.
  - apply lstrip_all_space_inv, rstrip_empty_all_space.
    destruct (PyStr.rstrip (PyStr.lstrip s)); [reflexivity | discriminate].
  - rewrite lstrip_all_space by exact H. reflexivity.
Qed.

Lemma lower_empty (s : string) : PyStr.lower s = "" <-> s = "".
Proof.
  destruct s; simpl; split; intros H; try reflexivity; discriminate.
Qed.

Lemma truthy_false (s : string) : PyStr.truthy s = false <-> s = "".
Proof.
  destruct s; simpl; split; intros H; try reflexivity; discriminate.
Qed.

Lemma truthy_true (s : string) : PyStr.truthy s = true <-> s <> "".
Proof.
  destruct s; simpl; split; intros H; try reflexivity; try discriminate.
  now contradiction H.
Qed.

Lemma contains_empty (s : string) : PyStr.contains "" s = true.
Proof. destruct s; reflexivity. Qed.

Lemma prefix_app (p s : string) : String.prefix p (p ++ s) = true.
Proof.
  induction p as [|c p IH]; simpl.
  - destruct s; reflexivity.
  - destruct (ascii_dec c c) as [_|N]; [exact IH | now contradiction N].
Qed.

(** ** Dictionaries *)

Section DictFacts.
Context {V : Type}.
Implicit Types (d : dict V) (k : string) (v : V).

Lemma dict_get_set_same k v d : dict_get k (dict_set k v d) = Some v.
Proof.
  induction d as [|[k' v'] d IH]; simpl.
  - now rewrite String.eqb_refl.
  - destruct (String.eqb k' k) eqn:E; simpl; rewrite E; [reflexivity | exact IH].
Qed.

Lemma dict_get_set_other k k' v d :
  k' <> k -> dict_get k (dict_set k' v d) = dict_get k d.
Proof.
  intros N. induction d as [|[k0 v0] d IH]; simpl.
  - apply String.eqb_neq in N. now rewrite N.
  - destruct (String.eqb k0 k') eqn:E; simpl.
    + apply String.eqb_eq in E. subst k0.
      apply String.eqb_neq in N. now rewrite N.
    + destruct (String.eqb k0 k); [reflexivity | exact IH].
Qed.

Lemma dict_get_keys k d : In k (dict_keys d) -> exists v, dict_get k d = Some v.
Proof.
  induction d as [|[k' v'] d IH]; simpl; intros H.
  - contradiction.
  - destruct (String.eqb k' k) eqn:E.
    + now exists v'.
    + destruct H as [H|H]; [| now apply IH].
      apply String.eqb_neq in E. now contradiction E.
Qed.

End DictFacts.

(** ** Eligibility and the first loop *)

Lemma eligible_id_Some (prefix : string) (bd : breed_data) (hp : string) :
  eligible_id prefix bd = Some hp <->
  healthy_paws_value bd = Some hp /\ hp <> ""
  /\ PyStr.startswith (prudent_pet_value bd) prefix = true.
Proof.
  unfold eligible_id. destruct (healthy_paws_value bd) as [v|].
  - destruct (PyStr.truthy v) eqn:T; simpl.
    + destruct (PyStr.startswith (prudent_pet_value bd) prefix) eqn:S.
      * split.
        -- intros [= <-]. repeat split. now apply truthy_true.
        -- now intros ([= <-] & _ & _).
      * split; [discriminate | now intros (_ & _ & [=])].
    + split; [discriminate |].
      intros ([= <-] & N & _). apply truthy_false in T. now contradiction N.
  - split; [discriminate | now intros ([=] & _)].
Qed.

Lemma eligible_id_record (prefix : string) (breeds : table)
    (k : string) (bd : breed_data) (hp : string) :
  In (k, bd) breeds -> eligible_id prefix bd = Some hp ->
  eligible_record prefix breeds k (label_of bd) hp.
Proof.
  intros Hin He. apply eligible_id_Some in He as (H1 & H2 & H3).
  exists bd. auto.
Qed.

Lemma scan_record_Some (q prefix k : string) (bd : breed_data) (m : Match.t) :
  scan_record q prefix (k, bd) = Some m ->
  Match.key m = k /\ Match.label m = label_of bd
  /\ eligible_id prefix bd = Some (Match.breed_id m)
  /\ Match.score m = None
  /\ (Match.match_type m = exact /\ exact_hit q k (label_of bd)
      \/ Match.match_type m = partial /\ ~ exact_hit q k (label_of bd)
         /\ partial_hit q k (label_of bd)).
Proof.
  unfold scan_record, exact_hit, partial_hit.
  destruct (eligible_id prefix bd) as [hp|]; [| discriminate].
  destruct (String.eqb_spec (PyStr.lower (label_of bd)) q) as [E1|E1]; simpl.
  - intros [= <-]; simpl. repeat split. left. auto.
  - destruct (String.eqb_spec k q) as [E2|E2].
    + intros [= <-]; simpl. repeat split. left. auto.
    + destruct (PyStr.contains q (PyStr.lower (label_of bd))) eqn:C1; simpl.
      * intros [= <-]; simpl. repeat split. right. intuition.
      * destruct (PyStr.contains q k) eqn:C2; [| discriminate].
        intros [= <-]; simpl. repeat split. right. intuition.
Qed.

(** An eligible record that matches exactly is appended as [exact]. *)
Lemma scan_record_exact (q prefix k hp : string) (bd : breed_data) :
  eligible_id prefix bd = Some hp -> exact_hit q k (label_of bd) ->
  scan_record q prefix (k, bd)
  = Some {| Match.key := k; Match.label := label_of bd;
            Match.breed_id := hp; Match.match_type := exact;
            Match.score := None |}.
Proof.
  unfold scan_record, exact_hit. intros -> [H|H].
  - apply String.eqb_eq in H. now rewrite H.
  - apply String.eqb_eq in H. rewrite H. now rewrite orb_true_r.
Qed.

Lemma scan_In (q prefix : string) (breeds : table) (m : Match.t) :
  In m (scan q prefix breeds) <->
  exists k bd, In (k, bd) breeds /\ scan_record q prefix (k, bd) = Some m.
Proof.
  induction breeds as [|[k bd] rest IH].
  - simpl. split; [contradiction | now intros (? & ? & [] & _)].
  - cbn [scan].
    destruct (scan_record q prefix (k, bd)) as [m'|] eqn:E.
    + split.
      * intros [<-|H].
        -- exists k, bd. split; [now left | exact E].
        -- apply IH in H as (k' & bd' & H1 & H2).
           exists k', bd'. split; [now right | exact H2].
      * intros (k' & bd' & [[= <- <-]|H1] & H2).
        -- left. congruence.
        -- right. apply IH. now exists k', bd'.
    + split.
      * intros H. apply IH in H as (k' & bd' & H1 & H2).
        exists k', bd'. split; [now right | exact H2].
      * intros (k' & bd' & [[= <- <-]|H1] & H2).
        -- congruence.
        -- apply IH. now exists k', bd'.
Qed.

(** ** Sorting and [extract] *)

Lemma insert_desc_In (h x : hit) (l : list hit) :
  In h (insert_desc x l) <-> h = x \/ In h l.
Proof.
  induction l as [|y l IH]; simpl.
  - intuition.
  - destruct (Qle_bool (hit_score y) (hit_score x)); simpl.
    + intuition.
    + rewrite IH. intuition.
Qed.

Lemma sort_desc_In (h : hit) (l : list hit) :
  In h (sort_desc l) <-> In h l.
Proof.
  induction l as [|x l IH]; simpl.
  - reflexivity.
  - rewrite insert_desc_In, IH. intuition.
Qed.

Lemma sort_desc_length (l : list hit) : length (sort_desc l) = length l.
Proof.
  induction l as [|x l IH]; simpl; [reflexivity |].
  rewrite <- IH. generalize (sort_desc l). intros s.
  induction s as [|y s IHs]; simpl; [reflexivity |].
  destruct (Qle_bool (hit_score y) (hit_score x)); simpl; auto.
Qed.

Lemma insert_desc_sorted (x : hit) (l : list hit) :
  StronglySorted hit_ge l -> StronglySorted hit_ge (insert_desc x l).
Proof.
  induction 1 as [|y l Hs IH Hall]; simpl.
  - constructor; constructor.
  - destruct (Qle_bool (hit_score y) (hit_score x)) eqn:E.
    + apply Qle_bool_iff in E.
      constructor; [now constructor |].
      constructor; [exact E |].
      eapply Forall_impl; [| exact Hall].
      intros z Hz. unfold hit_ge in *. now apply Qle_trans with (hit_score y).
    + constructor; [exact IH |].
      apply Forall_forall. intros z Hz. apply insert_desc_In in Hz as [->|Hz].
      * unfold hit_ge. apply Qlt_le_weak. apply Qnot_le_lt.
        intros C. apply Qle_bool_iff in C. congruence.
      * rewrite Forall_forall in Hall. now apply Hall.
Qed.

Lemma sort_desc_sorted (l : list hit) : StronglySorted hit_ge (sort_desc l).
Proof.
  induction l as [|x l IH]; simpl.
  - constructor.
  - now apply insert_desc_sorted.
Qed.

Lemma firstn_subset {A} (n : nat) (l : list A) (x : A) :
  In x (firstn n l) -> In x l.
Proof.
  revert l. induction n as [|n IH]; intros [|y l]; simpl; try contradiction.
  intros [H|H]; [now left | right; now apply IH].
Qed.

Lemma firstn_sorted {A} (R : A -> A -> Prop) (n : nat) (l : list A) :
  StronglySorted R l -> StronglySorted R (firstn n l).
Proof.
  intros H. revert n. induction H as [|x l Hs IH Hall]; intros [|n]; simpl;
    try constructor.
  - apply IH.
  - apply Forall_forall. intros y Hy. rewrite Forall_forall in Hall.
    apply Hall. eapply firstn_subset; eauto.
Qed.

Section ExtractFacts.

Variable scorer : string -> string -> Q.

Lemma extract_In (query : string) (choices : list string) (limit : nat)
    (h : hit) :
  In h (extract scorer query choices limit) ->
  In (hit_label h) choices /\ hit_score h = scorer query (hit_label h).
Proof.
  unfold extract. intros H. apply firstn_subset in H.
  rewrite sort_desc_In in H. apply in_map_iff in H as ([c i] & <- & Hc).
  apply in_combine_l in Hc. simpl. auto.
Qed.

Lemma extract_length (query : string) (choices : list string) (limit : nat) :
  length (extract scorer query choices limit) <= limit.
Proof. unfold extract. apply firstn_le_length. Qed.

Lemma extract_sorted (query : string) (choices : list string) (limit : nat) :
  StronglySorted hit_ge (extract scorer query choices limit).
Proof. unfold extract. apply firstn_sorted, sort_desc_sorted. Qed.

End ExtractFacts.

(** ** The label dictionary of the fuzzy pass *)

Lemma add_label_get (prefix l k : string) (bd : breed_data)
    (acc : dict Info.t) :
  dict_get l (add_label prefix acc (k, bd))
  = match eligible_id prefix bd with
    | Some hp =>
        if String.eqb (label_of bd) l
        then Some {| Info.key := k; Info.breed_id := hp;
                     Info.label := label_of bd |}
        else dict_get l acc
    | None => dict_get l acc
    end.
Proof.
  unfold add_label. destruct (eligible_id prefix bd) as [hp|]; [| reflexivity].
  destruct (String.eqb_spec (label_of bd) l) as [E|E].
  - rewrite E. apply dict_get_set_same.
  - now apply dict_get_set_other.
Qed.

(** Assignment overwrites: after the loop a label maps to the last
    eligible record that carries it. *)
Lemma fold_labels_get (prefix l : string) (breeds : table) :
  forall acc : dict Info.t,
    dict_get l (fold_left (add_label prefix) breeds acc)
    = match last_labelled prefix l breeds with
      | Some i => Some i
      | None => dict_get l acc
      end.
Proof.
  induction breeds as [|[k bd] rest IH]; intros acc;
    cbn [fold_left last_labelled].
  - reflexivity.
  - rewrite IH. destruct (last_labelled prefix l rest) as [i|]; [reflexivity |].
    rewrite add_label_get.
    destruct (eligible_id prefix bd) as [hp|]; [| reflexivity].
    destruct (String.eqb (label_of bd) l); reflexivity.
Qed.

Lemma build_labels_get (prefix l : string) (breeds : table) :
  dict_get l (build_labels prefix breeds) = last_labelled prefix l breeds.
Proof.
  unfold build_labels. rewrite fold_labels_get.
  now destruct (last_labelled prefix l breeds).
Qed.

Lemma last_labelled_None (prefix l : string) (breeds : table) :
  last_labelled prefix l breeds = None ->
  forall k bd, In (k, bd) breeds -> label_of bd = l ->
               eligible_id prefix bd = None.
Proof.
  induction breeds as [|[k0 bd0] rest IH]; simpl; intros H k bd Hin Hl.
  - contradiction.
  - destruct (last_labelled prefix l rest) as [i|] eqn:E; [discriminate |].
    destruct Hin as [[= <- <-]|Hin]; [| now apply (IH eq_refl k bd)].
    destruct (eligible_id prefix bd0) as [hp|]; [| reflexivity].
    apply String.eqb_eq in Hl. rewrite Hl in H. discriminate.
Qed.

Lemma last_labelled_Some (prefix l : string) (breeds : table) (i : Info.t) :
  last_labelled prefix l breeds = Some i ->
  exists before k bd after,
    breeds = before ++ (k, bd) :: after
    /\ eligible_id prefix bd = Some (Info.breed_id i)
    /\ label_of bd = l /\ Info.key i = k /\ Info.label i = l
    /\ (forall k' bd', In (k', bd') after -> label_of bd' = l ->
                       eligible_id prefix bd' = None).
Proof.
  induction breeds as [|[k0 bd0] rest IH]; simpl; intros H.
  - discriminate.
  - destruct (last_labelled prefix l rest) as [j|] eqn:E.
    + injection H as ->.
      destruct (IH eq_refl) as (before & k & bd & after & -> & H1 & H2 & H3 & H4 & H5).
      exists ((k0, bd0) :: before), k, bd, after. auto 10.
    + destruct (eligible_id prefix bd0) as [hp|] eqn:El; [| discriminate].
      destruct (String.eqb_spec (label_of bd0) l) as [Hl|Hl]; [| discriminate].
      injection H as <-. simpl.
      exists [], k0, bd0, rest. repeat split; auto.
      now apply last_labelled_None.
Qed.

(** ** The fuzzy pass *)

Lemma above_70_lt (s : Q) : above_70 s = true <-> Qlt (Qmake 70 1) s.
Proof.
  unfold above_70. rewrite negb_true_iff. split; intros H.
  - apply Qnot_le_lt. intros C. apply Qle_bool_iff in C. congruence.
  - destruct (Qle_bool s (Qmake 70 1)) eqn:E; [| reflexivity].
    apply Qle_bool_iff in E. exfalso. now apply (Qlt_not_le _ _ H).
Qed.

Lemma fuzzy_match_In (labels : dict Info.t) (h : hit) (m : Match.t) :
  In m (fuzzy_match labels h) ->
  above_70 (hit_score h) = true
  /\ Match.score m = Some (hit_score h)
  /\ Match.match_type m = fuzzy
  /\ dict_get (hit_label h) labels
     = Some {| Info.key := Match.key m; Info.breed_id := Match.breed_id m;
               Info.label := Match.label m |}.
Proof.
  destruct h as [[l s] n]. unfold fuzzy_match, hit_score, hit_label. simpl.
  destruct (above_70 s); [| contradiction].
  destruct (dict_get l labels) as [[k b lb]|]; [| contradiction].
  intros [<-|[]]. simpl. auto.
Qed.

Lemma fuzzy_match_length (labels : dict Info.t) (h : hit) :
  length (fuzzy_match labels h) <= 1.
Proof.
  destruct h as [[l s] n]. unfold fuzzy_match.
  destruct (above_70 s); [| simpl; lia].
  destruct (dict_get l labels); simpl; lia.
Qed.

Lemma flat_map_fuzzy_length (labels : dict Info.t) (hits : list hit) :
  length (flat_map (fuzzy_match labels) hits) <= length hits.
Proof.
  induction hits as [|h hits IH]; simpl; [lia |].
  rewrite length_app. pose proof (fuzzy_match_length labels h). lia.
Qed.

(** The surviving candidates carry the scores of their hits, in the order
    of the hits. *)
Lemma flat_map_fuzzy_scores (labels : dict Info.t) (hits : list hit) :
  StronglySorted hit_ge hits ->
  exists scores,
    map Match.score (flat_map (fuzzy_match labels) hits) = map Some scores
    /\ descending scores
    /\ Forall (fun s => exists h, In h hits /\ hit_score h = s) scores.
Proof.
  induction 1 as [|h hits Hs IH Hall]; simpl.
  - exists []. repeat split; constructor.
  - destruct IH as (scores & E & D & F).
    destruct (fuzzy_match labels h) as [|m [|m' rest]] eqn:Em.
    + exists scores. simpl. repeat split; auto.
      eapply Forall_impl; [| exact F]. intros s (h' & H1 & H2). eauto.
    + assert (Hm : In m (fuzzy_match labels h)) by (rewrite Em; now left).
      apply fuzzy_match_In in Hm as (_ & Sc & _ & _).
      exists (hit_score h :: scores). simpl. rewrite Sc, E.
      repeat split.
      * constructor; [exact D |].
        apply Forall_forall. intros s Hin. rewrite Forall_forall in F, Hall.
        destruct (F s Hin) as (h' & H1 & <-). now apply Hall.
      * constructor; [now exists h; auto |].
        eapply Forall_impl; [| exact F]. intros s (h' & H1 & H2). eauto.
    + pose proof (fuzzy_match_length labels h) as L. rewrite Em in L.
      simpl in L. lia.
Qed.

Section MatcherFacts.

Variable scorer : string -> string -> Q.

(** [breed_labels[match_label]] never raises [KeyError]. *)
Lemma fuzzy_lookup_total (query : string) (labels : dict Info.t) (limit : nat)
    (h : hit) :
  In h (extract scorer query (dict_keys labels) limit) ->
  exists info, dict_get (hit_label h) labels = Some info.
Proof.
  intros H. apply extract_In in H as [H _]. now apply dict_get_keys.
Qed.

Lemma fuzzy_pass_In (breed_name prefix : string) (breeds : table)
    (m : Match.t) :
  In m (fuzzy_pass scorer breed_name prefix breeds) ->
  Match.match_type m = fuzzy
  /\ Match.score m = Some (scorer breed_name (Match.label m))
  /\ Qlt (Qmake 70 1) (scorer breed_name (Match.label m))
  /\ last_labelled prefix (Match.label m) breeds
     = Some {| Info.key := Match.key m; Info.breed_id := Match.breed_id m;
               Info.label := Match.label m |}.
Proof.
  unfold fuzzy_pass. intros H.
  assert (H' : In m (flat_map (fuzzy_match (build_labels prefix breeds))
                      (extract scorer breed_name
                         (dict_keys (build_labels prefix breeds)) 5))).
  { destruct (build_labels prefix breeds); [contradiction | exact H]. }
  clear H. apply in_flat_map in H' as (h & Hh & Hm).
  apply extract_In in Hh as [_ Hs].
  apply fuzzy_match_In in Hm as (A & Sc & T & G).
  rewrite build_labels_get in G.
  destruct (last_labelled_Some _ _ _ _ G) as (_ & _ & _ & _ & _ & _ & _ & _ & L & _).
  simpl in L. rewrite <- L in *.
  repeat split; auto.
  - now rewrite Sc, Hs.
  - rewrite <- Hs. now apply above_70_lt.
Qed.

Lemma fuzzy_pass_length (breed_name prefix : string) (breeds : table) :
  length (fuzzy_pass scorer breed_name prefix breeds) <= 5.
Proof.
  unfold fuzzy_pass. destruct (build_labels prefix breeds) as [|x d] eqn:E.
  - simpl. lia.
  - etransitivity; [apply flat_map_fuzzy_length | apply extract_length].
Qed.

Lemma fuzzy_pass_descending (breed_name prefix : string) (breeds : table) :
  exists scores,
    map Match.score (fuzzy_pass scorer breed_name prefix breeds)
    = map Some scores
    /\ descending scores.
Proof.
  unfold fuzzy_pass. destruct (build_labels prefix breeds) as [|x d] eqn:E.
  - exists []. split; [reflexivity | constructor].
  - destruct (flat_map_fuzzy_scores (x :: d)
                (extract scorer breed_name (dict_keys (x :: d)) 5)
                (extract_sorted _ _ _ _)) as (scores & H1 & H2 & _).
    now exists scores.
Qed.

(** No eligible label above 70: the fuzzy pass appends nothing. *)
Lemma fuzzy_pass_nil (breed_name prefix : string) (breeds : table) :
  (forall k bd hp, In (k, bd) breeds -> eligible_id prefix bd = Some hp ->
                   Qle (scorer breed_name (label_of bd)) (Qmake 70 1)) ->
  fuzzy_pass scorer breed_name prefix breeds = [].
Proof.
  intros H. destruct (fuzzy_pass scorer breed_name prefix breeds) as [|m ms] eqn:E;
    [reflexivity |].
  assert (Hm : In m (fuzzy_pass scorer breed_name prefix breeds))
    by (rewrite E; now left).
  apply fuzzy_pass_In in Hm as (_ & _ & Lt & L).
  apply last_labelled_Some in L
    as (before & k & bd & after & -> & El & Hl & _).
  simpl in El. exfalso. apply (Qlt_not_le _ _ Lt). rewrite <- Hl.
  apply (H k bd (Match.breed_id m)); [| exact El].
  apply in_or_app. right. now left.
Qed.

(** ** [search_breeds] on a table *)

Lemma search_count (breeds : table) (breed_name species_type : string) :
  count (search_breeds_on scorer breeds breed_name species_type)
  = length (matches (search_breeds_on scorer breeds breed_name species_type)).
Proof. reflexivity. Qed.

(** The fuzzy pass is gated by [if not matches]. *)
Lemma search_scan (breeds : table) (breed_name species_type : string) :
  scan (PyStr.strip (PyStr.lower breed_name)) (species_prefix species_type)
       breeds <> [] ->
  matches (search_breeds_on scorer breeds breed_name species_type)
  = scan (PyStr.strip (PyStr.lower breed_name))
         (species_prefix species_type) breeds.
Proof.
  unfold search_breeds_on. simpl.
  destruct (scan _ _ breeds); [intros H; now contradiction H | reflexivity].
Qed.

Lemma search_fuzzy (breeds : table) (breed_name species_type : string) :
  scan (PyStr.strip (PyStr.lower breed_name)) (species_prefix species_type)
       breeds = [] ->
  matches (search_breeds_on scorer breeds breed_name species_type)
  = fuzzy_pass scorer breed_name (species_prefix species_type) breeds.
Proof.
  unfold search_breeds_on. simpl. now intros ->.
Qed.

End MatcherFacts.

(** ** The loader *)

Lemma load_cases (w : world) :
  (exists breeds w', load_breeds_cache w = (Ok breeds, w')
                     /\ BREEDS_CACHE w' = Some breeds)
  \/ (exists w', load_breeds_cache w = (Raise LoadError, w')).
Proof.
  unfold load_breeds_cache.
  destruct (BREEDS_CACHE w) as [t|] eqn:C.
  - left. exists t, w. auto.
  - destruct (disk w) as [t|].
    + left. eexists t, _. split; reflexivity.
    + right. eexists. reflexivity.
Qed.

Lemma load_cached (w : world) (breeds : table) :
  BREEDS_CACHE w = Some breeds -> load_breeds_cache w = (Ok breeds, w).
Proof. unfold load_breeds_cache. now intros ->. Qed.

(** ** Classification of the exceptions *)

Lemma classify_not_found (breed_name species : string) :
  classify (HTTPException 404 (not_found_detail breed_name species))
  = NotFound.
Proof.
  unfold classify, not_found_detail.
  change (Z.eqb 404 400) with false. change (Z.eqb 404 404) with true.
  cbn [andb orb]. rewrite prefix_app.
  now destruct (String.eqb_spec
                  ("No breeds found matching '" ++ breed_name ++ "' for " ++ species)
                  "Species must be 'dog' or 'cat'").
Qed.

Lemma species_prefix_dog : species_prefix "dog" = "Dog~".
Proof. reflexivity. Qed.

Lemma species_prefix_cat : species_prefix "cat" = "Cat~".
Proof. reflexivity. Qed.

Lemma valid_species_truthy (sp : string) :
  valid_species sp -> PyStr.truthy sp = true.
Proof. destruct sp; [intros [H|H]; discriminate | reflexivity]. Qed.

Lemma valid_species_dec (sp : string) :
  {valid_species sp} + {PyStr.lower sp <> "dog" /\ PyStr.lower sp <> "cat"}.
Proof.
  unfold valid_species.
  destruct (string_dec (PyStr.lower sp) "dog") as [H|H]; [left; now left |].
  destruct (string_dec (PyStr.lower sp) "cat") as [H'|H']; [left; now right |].
  right. auto.
Qed.

Section EngineFacts.

Variable scorer : string -> string -> Q.

(** ** [resolve_breed_code]: the paths through the function *)

(** The species check does not look at the query, the table or the cache. *)
Lemma resolve_invalid_species (sp : string) :
  PyStr.lower sp <> "dog" /\ PyStr.lower sp <> "cat" ->
  exists e,
    classify e = InvalidSpecies
    /\ (forall q' sp', e <> HTTPException 404 (not_found_detail q' sp'))
    /\ forall q w, resolve_breed_code scorer sp q w = (Raise e, w).
Proof.
  intros [Hd Hc]. unfold resolve_breed_code.
  destruct (PyStr.truthy sp).
  - apply String.eqb_neq in Hd, Hc. rewrite Hd, Hc. simpl.
    eexists. split; [| split; [| reflexivity]]; [reflexivity |].
    intros q' sp'. discriminate.
  - simpl. eexists. split; [| split; [| reflexivity]]; [reflexivity |].
    intros q' sp'. discriminate.
Qed.

Lemma resolve_valid (sp q : string) (w : world) :
  valid_species sp -> q <> "" ->
  resolve_breed_code scorer sp q w
  = (search_result <- search_breeds scorer q (PyStr.lower sp) ;;
     route q (PyStr.lower sp) search_result) w.
Proof.
  intros V Hq. unfold resolve_breed_code.
  rewrite (valid_species_truthy _ V). simpl.
  assert (E : String.eqb (PyStr.lower sp) "dog"
              || String.eqb (PyStr.lower sp) "cat" = true).
  { destruct V as [->| ->]; reflexivity. }
  rewrite E. simpl. apply truthy_true in Hq. now rewrite Hq.
Qed.

Lemma resolve_empty_query (sp : string) (w : world) :
  valid_species sp ->
  resolve_breed_code scorer sp "" w
  = (Raise (HTTPException 400 "Breed name is required"), w).
Proof.
  intros V. unfold resolve_breed_code.
  rewrite (valid_species_truthy _ V). simpl.
  assert (E : String.eqb (PyStr.lower sp) "dog"
              || String.eqb (PyStr.lower sp) "cat" = true).
  { destruct V as [->| ->]; reflexivity. }
  now rewrite E.
Qed.

Lemma resolve_loaded (sp q : string) (w w' : world) (breeds : table) :
  valid_species sp -> q <> "" ->
  load_breeds_cache w = (Ok breeds, w') ->
  resolve_breed_code scorer sp q w
  = route q (PyStr.lower sp)
      (search_breeds_on scorer breeds q (PyStr.lower sp)) w'.
Proof.
  intros V Hq L. rewrite resolve_valid by assumption.
  unfold bind, search_breeds, bind. rewrite L. reflexivity.
Qed.

Lemma resolve_load_error (sp q : string) (w w' : world) (e : exn) :
  valid_species sp -> q <> "" ->
  load_breeds_cache w = (Raise e, w') ->
  resolve_breed_code scorer sp q w = (Raise e, w').
Proof.
  intros V Hq L. rewrite resolve_valid by assumption.
  unfold bind, search_breeds, bind. rewrite L. reflexivity.
Qed.

Lemma route_search (breeds : table) (q species : string) (w : world) :
  let found := matches (search_breeds_on scorer breeds q species) in
  route q species (search_breeds_on scorer breeds q species) w
  = match found with
    | [] => (Raise (HTTPException 404 (not_found_detail q species)), w)
    | [m] => (Ok (single (Match.breed_id m) (Match.label m) (Match.key m)), w)
    | _ :: _ :: _ =>
        (Ok (multiple (length found) (map option_of found)
               (multiple_message (length found) q)), w)
    end.
Proof.
  intros found. unfold route. rewrite search_count. fold found.
  destruct found as [|m [|m' rest]]; reflexivity.
Qed.

(** The outcome of a call that passes both input checks. *)
Lemma resolve_outcome (sp q : string) (w w' : world) (breeds : table) :
  valid_species sp -> q <> "" ->
  load_breeds_cache w = (Ok breeds, w') ->
  outcome (fst (resolve_breed_code scorer sp q w))
  = decision (matches (search_breeds_on scorer breeds q (PyStr.lower sp)))
  /\ snd (resolve_breed_code scorer sp q w) = w'.
Proof.
  intros V Hq L. rewrite (resolve_loaded _ _ _ _ _ V Hq L), route_search.
  destruct (matches (search_breeds_on scorer breeds q (PyStr.lower sp)))
    as [|m [|m' rest]]; split; try reflexivity.
  cbn [fst outcome decision]. now rewrite classify_not_found.
Qed.

End EngineFacts.

(** * The properties of the resolution engine *)

(** C9 - loader idempotence.  Once a call of [load_breeds_cache] has
    returned a table, the global holds that table, the file was opened at
    most once by that call (exactly once from an empty cache), and every
    later call returns the same table and leaves the whole state as it is,
    the count of file reads included, whatever the file holds by then; so
    two calls in a row yield what one call yields. *)
Theorem load_idempotent (w w1 : world) (breeds : table) :
  load_breeds_cache w = (Ok breeds, w1) ->
  BREEDS_CACHE w1 = Some breeds
  /\ (BREEDS_CACHE w = None -> reads w1 = S (reads w))
  /\ (forall later,
        load_breeds_cache
          {| disk := later; BREEDS_CACHE := BREEDS_CACHE w1;
             reads := reads w1 |}
        = (Ok breeds,
           {| disk := later; BREEDS_CACHE := BREEDS_CACHE w1;
              reads := reads w1 |}))
  /\ load_breeds_cache w1 = (Ok breeds, w1)
  /\ (_ <- load_breeds_cache ;; load_breeds_cache) w = load_breeds_cache w.
Proof.
  intros L.
  assert (C : BREEDS_CACHE w1 = Some breeds).
  { revert L. unfold load_breeds_cache.
    destruct (BREEDS_CACHE w) as [t|] eqn:C.
    - now intros [= <- <-].
    - destruct (disk w) as [t|]; [| discriminate]. now intros [= <- <-]. }
  split; [exact C |]. split; [| split; [| split]].
  - intros N. revert L. unfold load_breeds_cache. rewrite N.
    destruct (disk w) as [t|]; [| discriminate]. now intros [= _ <-].
  - intros later. apply load_cached. exact C.
  - now apply load_cached.
  - unfold bind. rewrite L. now apply load_cached.
Qed.

(** A call that fails caches nothing: the next call opens the file again. *)
Lemma load_failure_retries (w w1 : world) (e : exn) :
  load_breeds_cache w = (Raise e, w1) ->
  BREEDS_CACHE w1 = None /\ reads w1 = S (reads w)
  /\ forall r w2, load_breeds_cache w1 = (r, w2) -> reads w2 = S (reads w1).
Proof.
  unfold load_breeds_cache at 1.
  destruct (BREEDS_CACHE w) as [t|] eqn:C; [discriminate |].
  destruct (disk w) as [t|] eqn:D; [discriminate |].
  intros [= <- <-]. simpl. repeat split.
  intros r w2. unfold load_breeds_cache. simpl.
  now intros [= <- <-].
Qed.

Section Claims.

Variable scorer : string -> string -> Q.

(** The options of the multiple-matches dictionary are the candidates,
    one by one and in order, each reduced to its label, key and match
    type. *)
Lemma options_follow (found : list Match.t) :
  Forall2 (fun o m => Opt.label o = Match.label m
                      /\ Opt.key o = Match.key m
                      /\ Opt.match_type o = Match.match_type m)
          (map option_of found) found.
Proof.
  induction found as [|m found IH]; simpl; constructor; auto.
Qed.

(** C5 - cardinality routing.  For a valid species, a non-empty query and
    a table that loads, [resolve_breed_code] branches on the match list
    of [search_breeds]: empty, it raises the 404 "No breeds found"
    (NotFound); one candidate, it returns that candidate's breed_id, label
    and key; two or more, it returns the multiple-matches dictionary whose
    count is the length of the list and whose options are the candidates
    one by one and in order: the n-th option has the label, the key and
    the match type of the n-th candidate. *)
Theorem cardinality_routing (sp q : string) (w w' : world) (breeds : table) :
  valid_species sp -> q <> "" ->
  load_breeds_cache w = (Ok breeds, w') ->
  let found := matches (search_breeds_on scorer breeds q (PyStr.lower sp)) in
  let r := resolve_breed_code scorer sp q w in
  (found = [] ->
     r = (Raise (HTTPException 404 (not_found_detail q (PyStr.lower sp))), w')
     /\ outcome (fst r) = Failed NotFound)
  /\ (forall m, found = [m] ->
        r = (Ok (single (Match.breed_id m) (Match.label m) (Match.key m)), w')
        /\ outcome (fst r)
           = Resolved (Match.breed_id m) (Match.label m) (Match.key m))
  /\ (2 <= length found ->
        exists options,
          r = (Ok (multiple (length found) options
                     (multiple_message (length found) q)), w')
          /\ outcome (fst r) = Ambiguous (length found) options
          /\ length options = length found
          /\ Forall2 (fun o m => Opt.label o = Match.label m
                                 /\ Opt.key o = Match.key m
                                 /\ Opt.match_type o = Match.match_type m)
                     options found).
Proof.
  intros V Hq L found r. subst r.
  rewrite (resolve_loaded scorer _ _ _ _ _ V Hq L), route_search. fold found.
  split; [| split].
  - intros ->. split; [reflexivity |].
    cbn [fst outcome]. now rewrite classify_not_found.
  - intros m ->. split; reflexivity.
  - intros Hlen. exists (map option_of found).
    destruct found as [|m [|m' rest]] eqn:F; simpl in Hlen; try lia.
    split; [reflexivity |]. split; [reflexivity |].
    split; [apply length_map | apply options_follow].
Qed.

(** C8 - invalid species.  A species that is empty, or whose lower-cased
    form is neither "dog" nor "cat", makes [resolve_breed_code] raise an
    exception classified InvalidSpecies, for every query and every state
    (which it leaves untouched, the table is not even loaded); that
    exception is never the 404 raised when nothing matches. *)
Theorem invalid_species (sp q : string) (w : world) :
  sp = "" \/ (PyStr.lower sp <> "dog" /\ PyStr.lower sp <> "cat") ->
  exists e,
    resolve_breed_code scorer sp q w = (Raise e, w)
    /\ outcome (fst (resolve_breed_code scorer sp q w)) = Failed InvalidSpecies
    /\ forall q' sp', e <> HTTPException 404 (not_found_detail q' sp').
Proof.
  intros H.
  assert (N : PyStr.lower sp <> "dog" /\ PyStr.lower sp <> "cat").
  { destruct H as [->|H]; [split; discriminate | exact H]. }
  destruct (resolve_invalid_species scorer sp N) as (e & C & D & R).
  exists e. rewrite R. cbn [fst outcome]. rewrite C. auto.
Qed.

(** C2, amended - the emptiness check is made on the raw query.  For a
    valid species the empty query makes [resolve_breed_code] raise the
    400 "Breed name is required" (InvalidQuery) in every state, without
    loading the table; a non-empty query, one made of whitespace only
    included, never ends in InvalidQuery. *)
Theorem empty_query_invalid (sp q : string) (w : world) :
  valid_species sp ->
  (q = "" ->
     resolve_breed_code scorer sp q w
     = (Raise (HTTPException 400 "Breed name is required"), w)
     /\ outcome (fst (resolve_breed_code scorer sp q w)) = Failed InvalidQuery)
  /\ (q <> "" ->
      outcome (fst (resolve_breed_code scorer sp q w)) <> Failed InvalidQuery).
Proof.
  intros V. split.
  - intros ->. rewrite resolve_empty_query by exact V. split; reflexivity.
  - intros Hq. destruct (load_cases w) as [(breeds & w' & L & _)|(w' & L)].
    + destruct (resolve_outcome scorer _ _ _ _ _ V Hq L) as [-> _].
      destruct (matches (search_breeds_on scorer breeds q (PyStr.lower sp)))
        as [|m [|m' rest]]; discriminate.
    + rewrite (resolve_load_error scorer _ _ _ _ _ V Hq L). discriminate.
Qed.

(** An eligible record that contains the query without matching it exactly
    is appended as [partial]. *)
Lemma scan_record_partial (q prefix k hp : string) (bd : breed_data) :
  eligible_id prefix bd = Some hp ->
  ~ exact_hit q k (label_of bd) -> partial_hit q k (label_of bd) ->
  scan_record q prefix (k, bd)
  = Some {| Match.key := k; Match.label := label_of bd;
            Match.breed_id := hp; Match.match_type := partial;
            Match.score := None |}.
Proof.
  unfold scan_record, exact_hit, partial_hit. intros -> N P.
  destruct (String.eqb_spec (PyStr.lower (label_of bd)) q) as [E|_];
    [contradiction N; now left |].
  destruct (String.eqb_spec k q) as [E|_]; [contradiction N; now right |].
  simpl. destruct P as [-> | ->]; [reflexivity | now rewrite orb_true_r].
Qed.

Lemma scan_nonempty (q prefix : string) (breeds : table) (m : Match.t) :
  In m (scan q prefix breeds) -> scan q prefix breeds <> [].
Proof. intros H E. rewrite E in H. contradiction. Qed.

Lemma scan_not_fuzzy (q prefix : string) (breeds : table) (m : Match.t) :
  In m (scan q prefix breeds) -> Match.match_type m <> fuzzy.
Proof.
  intros H. apply scan_In in H as (k & bd & _ & H).
  apply scan_record_Some in H as (_ & _ & _ & _ & [[-> _]|[-> _]]);
    discriminate.
Qed.

(** A fuzzy candidate in the result: the first loop found nothing. *)
Lemma fuzzy_candidate_gate (breeds : table) (q sp : string) (m : Match.t) :
  In m (matches (search_breeds_on scorer breeds q sp)) ->
  Match.match_type m = fuzzy ->
  scan (PyStr.strip (PyStr.lower q)) (species_prefix sp) breeds = []
  /\ In m (fuzzy_pass scorer q (species_prefix sp) breeds).
Proof.
  intros Hin Hf.
  destruct (scan (PyStr.strip (PyStr.lower q)) (species_prefix sp) breeds)
    as [|x l] eqn:E.
  - split; [reflexivity |]. now rewrite search_fuzzy in Hin.
  - exfalso. rewrite search_scan in Hin by (rewrite E; discriminate).
    now apply scan_not_fuzzy in Hin.
Qed.

(** C1, amended - the exact and partial tests share one loop; only the
    fuzzy pass is gated.  If an eligible record matches the query exactly,
    the match list is the list of the first loop: it contains no fuzzy
    candidate; it contains that record as an [exact] candidate; a
    candidate is [exact] precisely when its record matches exactly, and a
    [partial] candidate is a record that contains the query; and every
    other eligible record that contains the query is in the list as a
    [partial] candidate. *)
Theorem exact_excludes_fuzzy (breeds : table) (q sp k hp : string)
    (bd : breed_data) :
  let q' := PyStr.strip (PyStr.lower q) in
  let prefix := species_prefix sp in
  let found := matches (search_breeds_on scorer breeds q sp) in
  In (k, bd) breeds -> eligible_id prefix bd = Some hp ->
  exact_hit q' k (label_of bd) ->
  found = scan q' prefix breeds
  /\ In {| Match.key := k; Match.label := label_of bd; Match.breed_id := hp;
           Match.match_type := exact; Match.score := None |} found
  /\ Forall (fun m =>
               Match.match_type m <> fuzzy
               /\ (Match.match_type m = exact
                   <-> exact_hit q' (Match.key m) (Match.label m))
               /\ (Match.match_type m = partial
                   -> partial_hit q' (Match.key m) (Match.label m))) found
  /\ (forall k' bd' hp',
        In (k', bd') breeds -> eligible_id prefix bd' = Some hp' ->
        ~ exact_hit q' k' (label_of bd') -> partial_hit q' k' (label_of bd') ->
        In {| Match.key := k'; Match.label := label_of bd';
              Match.breed_id := hp'; Match.match_type := partial;
              Match.score := None |} found).
Proof.
  intros q' prefix found Hin He Hx.
  assert (Hm : In {| Match.key := k; Match.label := label_of bd;
                     Match.breed_id := hp; Match.match_type := exact;
                     Match.score := None |} (scan q' prefix breeds)).
  { apply scan_In. exists k, bd. split; [exact Hin |].
    now apply scan_record_exact. }
  assert (Hf : found = scan q' prefix breeds).
  { apply search_scan. eapply scan_nonempty; eauto. }
  rewrite Hf. split; [reflexivity |]. split; [exact Hm |]. split.
  - apply Forall_forall. intros m H. split; [eapply scan_not_fuzzy; eauto |].
    apply scan_In in H as (k1 & bd1 & _ & H).
    apply scan_record_Some in H as (-> & -> & _ & _ & [[T X]|[T [N P]]]);
      rewrite T; split; try tauto; try discriminate.
    split; [discriminate | contradiction].
  - intros k' bd' hp' Hin' He' N P. apply scan_In. exists k', bd'.
    split; [exact Hin' |]. now apply scan_record_partial.
Qed.

(** C3, amended - the contract of the fuzzy pass.  It runs only when the
    first loop (exact and partial tests) appended nothing: a fuzzy
    candidate in the result means that loop found nothing, and a non-empty
    loop result is returned as it is.  When it runs it yields at most 5
    candidates, each with a score strictly above 70, in descending score
    order.  And when the first loop found nothing and every eligible label
    scores at most 70 against the query, [resolve_breed_code] raises the
    404 (NotFound); a low score alone does not, since an exact or partial
    candidate is returned whatever it scores. *)
Theorem fuzzy_contract (breeds : table) (q sp : string) :
  let q' := PyStr.strip (PyStr.lower q) in
  let prefix := species_prefix sp in
  let found := matches (search_breeds_on scorer breeds q sp) in
  (forall m, In m found -> Match.match_type m = fuzzy ->
             scan q' prefix breeds = [])
  /\ (scan q' prefix breeds <> [] ->
      found = scan q' prefix breeds
      /\ Forall (fun m => Match.match_type m <> fuzzy) found)
  /\ (scan q' prefix breeds = [] ->
      length found <= 5
      /\ Forall (fun m => Match.match_type m = fuzzy) found
      /\ exists scores,
           map Match.score found = map Some scores
           /\ descending scores
           /\ Forall (fun s => Qlt (Qmake 70 1) s) scores)
  /\ (forall m, In m found -> Match.match_type m = fuzzy ->
        exists s, Match.score m = Some s /\ Qlt (Qmake 70 1) s
                  /\ s = scorer q (Match.label m))
  /\ (forall species_type w w',
        valid_species species_type -> sp = PyStr.lower species_type ->
        q <> "" -> load_breeds_cache w = (Ok breeds, w') ->
        scan q' prefix breeds = [] ->
        (forall k bd hp, In (k, bd) breeds -> eligible_id prefix bd = Some hp ->
                         Qle (scorer q (label_of bd)) (Qmake 70 1)) ->
        resolve_breed_code scorer species_type q w
        = (Raise (HTTPException 404 (not_found_detail q sp)), w')
        /\ outcome (fst (resolve_breed_code scorer species_type q w))
           = Failed NotFound).
Proof.
  intros q' prefix found. split; [| split; [| split; [| split]]].
  - intros m Hin Hf. now destruct (fuzzy_candidate_gate _ _ _ _ Hin Hf).
  - intros Hs. assert (Hf : found = scan q' prefix breeds)
      by now apply search_scan.
    split; [exact Hf |]. rewrite Hf. apply Forall_forall.
    intros m Hm. eapply scan_not_fuzzy; eauto.
  - intros Hs. assert (Hf : found = fuzzy_pass scorer q prefix breeds)
      by now apply search_fuzzy.
    rewrite Hf. split; [apply fuzzy_pass_length |]. split.
    + apply Forall_forall. intros m Hm. now apply fuzzy_pass_In in Hm.
    + destruct (fuzzy_pass_descending scorer q prefix breeds)
        as (scores & E & D).
      exists scores. split; [exact E |]. split; [exact D |].
      apply Forall_forall. intros s Hs'.
      assert (Hi : In (Some s) (map Match.score
                                  (fuzzy_pass scorer q prefix breeds))).
      { rewrite E. now apply in_map. }
      apply in_map_iff in Hi as (m & Sm & Hm).
      apply fuzzy_pass_In in Hm as (_ & Sc & Lt & _).
      rewrite Sc in Sm. injection Sm as <-. exact Lt.
  - intros m Hin Hf. destruct (fuzzy_candidate_gate _ _ _ _ Hin Hf) as [_ Hm].
    apply fuzzy_pass_In in Hm as (_ & Sc & Lt & _). eauto.
  - intros species_type w w' V -> Hq L Hs Hle.
    assert (Hf : found = []).
    { unfold found. rewrite search_fuzzy by exact Hs.
      now apply fuzzy_pass_nil. }
    rewrite (resolve_loaded scorer _ _ _ _ _ V Hq L), route_search.
    fold found. rewrite Hf. split; [reflexivity |].
    cbn [fst outcome]. now rewrite classify_not_found.
Qed.

(** C4, amended - last wins.  Assigning [breed_labels[label]] overwrites,
    so a fuzzy candidate carries the key and breed id of the last eligible
    record of the table with its label: the table splits around a record
    stored under the candidate's key, eligible, with the candidate's label
    and its HealthyPaws identifier as breed id, after which no eligible
    record has that label. *)
Theorem fuzzy_last_wins (breeds : table) (q sp : string) (m : Match.t) :
  In m (matches (search_breeds_on scorer breeds q sp)) ->
  Match.match_type m = fuzzy ->
  exists before bd after,
    breeds = before ++ (Match.key m, bd) :: after
    /\ label_of bd = Match.label m
    /\ healthy_paws_value bd = Some (Match.breed_id m)
    /\ eligible_id (species_prefix sp) bd = Some (Match.breed_id m)
    /\ (forall k' bd', In (k', bd') after -> label_of bd' = Match.label m ->
                       eligible_id (species_prefix sp) bd' = None).
Proof.
  intros Hin Hf. destruct (fuzzy_candidate_gate _ _ _ _ Hin Hf) as [_ Hm].
  apply fuzzy_pass_In in Hm as (_ & _ & _ & L).
  apply last_labelled_Some in L
    as (before & k & bd & after & E & El & Hl & Hk & _ & Hafter).
  simpl in El, Hk. subst k. exists before, bd, after.
  repeat split; auto. now apply eligible_id_Some in El.
Qed.

(** Both loops apply the same two guards: every candidate of
    [search_breeds] is backed by an eligible record of the species. *)
Lemma search_eligible (breeds : table) (q sp : string) (m : Match.t) :
  In m (matches (search_breeds_on scorer breeds q sp)) ->
  eligible_record (species_prefix sp) breeds
    (Match.key m) (Match.label m) (Match.breed_id m).
Proof.
  intros Hin.
  destruct (scan (PyStr.strip (PyStr.lower q)) (species_prefix sp) breeds)
    as [|x l] eqn:E.
  - rewrite search_fuzzy in Hin by exact E.
    apply fuzzy_pass_In in Hin as (_ & _ & _ & L).
    apply last_labelled_Some in L
      as (before & k & bd & after & -> & El & Hl & Hk & _).
    simpl in El, Hk. subst k. rewrite <- Hl.
    apply eligible_id_record; [| exact El].
    apply in_or_app. right. now left.
  - rewrite search_scan in Hin by (rewrite E; discriminate).
    apply scan_In in Hin as (k & bd & Hin & H).
    apply scan_record_Some in H as (-> & -> & El & _).
    now apply eligible_id_record.
Qed.

Lemma dog_not_cat (v : string) :
  PyStr.startswith v "Dog~" = true -> PyStr.startswith v "Cat~" = false.
Proof.
  unfold PyStr.startswith. destruct v as [|a v]; [easy |].
  destruct a as [[] [] [] [] [] [] [] []]; simpl; easy.
Qed.

Lemma cat_not_dog (v : string) :
  PyStr.startswith v "Cat~" = true -> PyStr.startswith v "Dog~" = false.
Proof.
  intros H. destruct (PyStr.startswith v "Dog~") eqn:E; [| reflexivity].
  apply dog_not_cat in E. congruence.
Qed.

Lemma unique_key {V} (d : dict V) (k : string) (a b : V) :
  NoDup (dict_keys d) -> In (k, a) d -> In (k, b) d -> a = b.
Proof.
  induction d as [|[k0 v0] d IH]; simpl; intros N Ha Hb; [contradiction |].
  inversion N as [|? ? Hn N']; subst.
  destruct Ha as [Ha|Ha], Hb as [Hb|Hb].
  - congruence.
  - exfalso. apply Hn. injection Ha as -> _.
    apply in_map_iff. now exists (k, b).
  - exfalso. apply Hn. injection Hb as -> _.
    apply in_map_iff. now exists (k, a).
  - now apply IH.
Qed.

(** A record that fails a guard backs no candidate. *)
Lemma search_excludes (breeds : table) (q sp k : string) (bd : breed_data)
    (m : Match.t) :
  NoDup (dict_keys breeds) -> In (k, bd) breeds ->
  PyStr.startswith (prudent_pet_value bd) (species_prefix sp) = false ->
  In m (matches (search_breeds_on scorer breeds q sp)) ->
  Match.key m <> k.
Proof.
  intros N Hin Hs Hm Hk. apply search_eligible in Hm
    as (bd' & Hin' & _ & _ & _ & S').
  rewrite Hk in Hin'. rewrite (unique_key _ _ _ _ N Hin Hin') in Hs.
  congruence.
Qed.

(** C6 - eligibility and species isolation.  Whatever pass produced it,
    every candidate of [search_breeds], hence the record returned by
    [resolve_breed_code] and every option of its multiple-matches
    dictionary, is stored in the table under the candidate's key, has the
    candidate's label, a non-empty HealthyPaws identifier (the breed id)
    and a PrudentPet identifier that starts with the capitalized species
    and ["~"], which is ["Dog~"] or ["Cat~"].  So with the keys of the
    table distinct, a record tagged for the other species backs no
    candidate, whatever its label. *)
Theorem eligibility_isolation (sp q : string) (w w' : world)
    (breeds : table) :
  load_breeds_cache w = (Ok breeds, w') ->
  let species := PyStr.lower sp in
  let prefix := (PyStr.capitalize species ++ "~")%string in
  let found := matches (search_breeds_on scorer breeds q species) in
  (forall m, In m found ->
     eligible_record prefix breeds
       (Match.key m) (Match.label m) (Match.breed_id m))
  /\ (forall b l k,
        fst (resolve_breed_code scorer sp q w) = Ok (single b l k) ->
        (prefix = "Dog~" \/ prefix = "Cat~")
        /\ eligible_record prefix breeds k l b)
  /\ (forall n opts msg o,
        fst (resolve_breed_code scorer sp q w) = Ok (multiple n opts msg) ->
        In o opts ->
        (prefix = "Dog~" \/ prefix = "Cat~")
        /\ exists b, eligible_record prefix breeds (Opt.key o) (Opt.label o) b)
  /\ (NoDup (dict_keys breeds) ->
      forall k bd m, In (k, bd) breeds -> In m found ->
        (species = "dog"
         /\ PyStr.startswith (prudent_pet_value bd) "Cat~" = true
         \/ species = "cat"
            /\ PyStr.startswith (prudent_pet_value bd) "Dog~" = true) ->
        Match.key m <> k).
Proof.
  intros L species prefix found.
  assert (S1 : forall m, In m found ->
                 eligible_record prefix breeds
                   (Match.key m) (Match.label m) (Match.breed_id m)).
  { intros m Hm. now apply search_eligible in Hm. }
  assert (Ok_valid : forall r, fst (resolve_breed_code scorer sp q w) = Ok r ->
                               valid_species sp /\ q <> "").
  { intros r Hr. destruct (valid_species_dec sp) as [V|N].
    - split; [exact V |]. intros ->.
      rewrite resolve_empty_query in Hr by exact V. discriminate.
    - destruct (resolve_invalid_species scorer sp N) as (e & _ & _ & R).
      rewrite R in Hr. discriminate. }
  assert (P : valid_species sp -> prefix = "Dog~" \/ prefix = "Cat~").
  { unfold prefix, species. intros [-> | ->]; [now left | now right]. }
  split; [exact S1 |]. split; [| split].
  - intros b l k Hr. destruct (Ok_valid _ Hr) as [V Hq].
    split; [now apply P |].
    rewrite (resolve_loaded scorer _ _ _ _ _ V Hq L), route_search in Hr.
    fold species found in Hr.
    destruct found as [|m [|m' rest]] eqn:F; try discriminate.
    injection Hr as <- <- <-. apply S1. now left.
  - intros n opts msg o Hr Ho. destruct (Ok_valid _ Hr) as [V Hq].
    split; [now apply P |].
    rewrite (resolve_loaded scorer _ _ _ _ _ V Hq L), route_search in Hr.
    fold species found in Hr.
    destruct found as [|m [|m' rest]] eqn:F; try discriminate.
    injection Hr as _ <- _.
    change (In o (map option_of (m :: m' :: rest))) in Ho.
    apply in_map_iff in Ho as (m0 & <- & Hm0).
    exists (Match.breed_id m0). now apply S1.
  - intros N k bd m Hin Hm Htag.
    apply (search_excludes breeds q species k bd m N Hin); [| exact Hm].
    destruct Htag as [[-> T]|[-> T]].
    + rewrite species_prefix_dog. now apply cat_not_dog.
    + rewrite species_prefix_cat. now apply dog_not_cat.
Qed.

(** The query reaches [extract] as it was typed; it matters there through
    the scores only. *)
Lemma extract_ext (q1 q2 : string) (choices : list string) (limit : nat) :
  (forall l, scorer q1 l = scorer q2 l) ->
  extract scorer q1 choices limit = extract scorer q2 choices limit.
Proof.
  intros H. unfold extract. do 2 f_equal. apply map_ext.
  intros ci. now rewrite H.
Qed.

Lemma search_normalized (breeds : table) (q1 q2 sp : string) :
  PyStr.strip (PyStr.lower q1) = PyStr.strip (PyStr.lower q2) ->
  scan (PyStr.strip (PyStr.lower q1)) (species_prefix sp) breeds <> []
  \/ (forall l, scorer q1 l = scorer q2 l) ->
  matches (search_breeds_on scorer breeds q1 sp)
  = matches (search_breeds_on scorer breeds q2 sp).
Proof.
  intros E H.
  destruct (scan (PyStr.strip (PyStr.lower q1)) (species_prefix sp) breeds)
    as [|x l] eqn:S.
  - destruct H as [H|H]; [now contradiction H |].
    rewrite !search_fuzzy by (rewrite <- ?E; exact S).
    unfold fuzzy_pass. destruct (build_labels (species_prefix sp) breeds);
      [reflexivity |].
    now rewrite (extract_ext q1 q2).
  - rewrite !search_scan by (rewrite <- ?E, S; discriminate).
    now rewrite E.
Qed.

(** C7, amended - the first loop compares the trimmed, lower-cased query;
    the emptiness check and the fuzzy scorer receive the query as typed.
    With a table that loads, two non-empty queries with the same trimmed
    lower-cased form give the same outcome (the same Resolved record, the
    same Ambiguous count and options, the same failure) and leave the same
    state whenever the first loop finds a candidate, or the scorer gives
    both queries the same score on every label.  In particular
    "Labrador Retriever" and "labrador retriever" both return the same
    single record for "dog" when that record is the one candidate of the
    first loop. *)
Theorem query_normalization (w w' : world) (breeds : table) :
  load_breeds_cache w = (Ok breeds, w') ->
  (forall sp q1 q2,
     PyStr.strip (PyStr.lower q1) = PyStr.strip (PyStr.lower q2) ->
     q1 <> "" -> q2 <> "" ->
     scan (PyStr.strip (PyStr.lower q1))
          (species_prefix (PyStr.lower sp)) breeds <> []
     \/ (forall l, scorer q1 l = scorer q2 l) ->
     outcome (fst (resolve_breed_code scorer sp q1 w))
     = outcome (fst (resolve_breed_code scorer sp q2 w))
     /\ snd (resolve_breed_code scorer sp q1 w)
        = snd (resolve_breed_code scorer sp q2 w))
  /\ (forall m,
        scan "labrador retriever" "Dog~" breeds = [m] ->
        resolve_breed_code scorer "dog" "Labrador Retriever" w
        = (Ok (single (Match.breed_id m) (Match.label m) (Match.key m)), w')
        /\ resolve_breed_code scorer "dog" "labrador retriever" w
           = (Ok (single (Match.breed_id m) (Match.label m) (Match.key m)),
              w')).
Proof.
  intros L. split.
  - intros sp q1 q2 E H1 H2 H.
    destruct (valid_species_dec sp) as [V|N].
    + destruct (resolve_outcome scorer _ _ _ _ _ V H1 L) as [-> ->].
      destruct (resolve_outcome scorer _ _ _ _ _ V H2 L) as [-> ->].
      now rewrite (search_normalized breeds q1 q2 (PyStr.lower sp) E H).
    + destruct (resolve_invalid_species scorer sp N) as (e & _ & _ & R).
      now rewrite !R.
  - intros m S.
    assert (V : valid_species "dog") by (left; reflexivity).
    assert (F1 : matches (search_breeds_on scorer breeds "Labrador Retriever"
                            (PyStr.lower "dog")) = [m]).
    { rewrite search_scan; [exact S |].
      change (scan "labrador retriever" "Dog~" breeds <> []).
      rewrite S. discriminate. }
    assert (F2 : matches (search_breeds_on scorer breeds "labrador retriever"
                            (PyStr.lower "dog")) = [m]).
    { rewrite search_scan; [exact S |].
      change (scan "labrador retriever" "Dog~" breeds <> []).
      rewrite S. discriminate. }
    split.
    + rewrite (resolve_loaded scorer "dog" "Labrador Retriever" w w' breeds V)
        by (discriminate || exact L).
      rewrite route_search, F1. reflexivity.
    + rewrite (resolve_loaded scorer "dog" "labrador retriever" w w' breeds V)
        by (discriminate || exact L).
      rewrite route_search, F2. reflexivity.
Qed.

(** With an empty normalized query every eligible record passes the first
    loop. *)
Lemma scan_record_blank (prefix k hp : string) (bd : breed_data) :
  eligible_id prefix bd = Some hp ->
  scan_record "" prefix (k, bd) = Some (blank_candidate k bd hp).
Proof.
  unfold scan_record, blank_candidate. intros ->.
  destruct (label_of bd) as [|c l]; [reflexivity |].
  destruct k as [|c' k]; [reflexivity |].
  cbn [PyStr.lower String.eqb orb]. now rewrite contains_empty.
Qed.

(** C10, amended - a whitespace-only query.  For a valid species and a
    table that loads, a non-empty query made of whitespace only is
    normalized to the empty string and does not end in InvalidQuery; every
    eligible record of the species is in the match list as a candidate of
    the first loop, [partial] when its label and key are both non-empty
    and [exact] when its label or its key is empty; no candidate is fuzzy;
    and when the table holds at least one such record the call returns
    the single record or the multiple-matches dictionary. *)
Theorem whitespace_query (sp q : string) (w w' : world) (breeds : table) :
  valid_species sp -> q <> "" -> blank q = true ->
  load_breeds_cache w = (Ok breeds, w') ->
  let prefix := species_prefix (PyStr.lower sp) in
  let found := matches (search_breeds_on scorer breeds q (PyStr.lower sp)) in
  let r := resolve_breed_code scorer sp q w in
  PyStr.strip (PyStr.lower q) = ""
  /\ outcome (fst r) <> Failed InvalidQuery
  /\ (forall k bd hp,
        In (k, bd) breeds -> eligible_id prefix bd = Some hp ->
        In (blank_candidate k bd hp) found)
  /\ Forall (fun m => Match.match_type m <> fuzzy) found
  /\ ((exists k bd hp, In (k, bd) breeds /\ eligible_id prefix bd = Some hp) ->
      (exists b l k, r = (Ok (single b l k), w'))
      \/ (exists n opts msg, r = (Ok (multiple n opts msg), w') /\ 2 <= n)).
Proof.
  intros V Hq B L prefix found r.
  assert (E : PyStr.strip (PyStr.lower q) = "").
  { apply strip_lower_all_space. now apply blank_all_space. }
  assert (A : forall k bd hp,
             In (k, bd) breeds -> eligible_id prefix bd = Some hp ->
             In (blank_candidate k bd hp) (scan "" prefix breeds)).
  { intros k bd hp Hin He. apply scan_In. exists k, bd.
    split; [exact Hin | now apply scan_record_blank]. }
  assert (Hr : r = route q (PyStr.lower sp)
                     (search_breeds_on scorer breeds q (PyStr.lower sp)) w')
    by now apply resolve_loaded.
  rewrite route_search in Hr. fold found in Hr.
  split; [exact E |]. split; [| split; [| split]].
  - rewrite Hr. destruct found as [|m [|m' rest]]; cbn [fst outcome];
      try discriminate.
    rewrite classify_not_found. discriminate.
  - intros k bd hp Hin He. unfold found.
    rewrite search_scan; rewrite E; [now apply A |].
    eapply scan_nonempty. eapply A; eauto.
  - apply Forall_forall. intros m Hm Hf.
    destruct (fuzzy_candidate_gate _ _ _ _ Hm Hf) as [S Hp].
    apply fuzzy_pass_In in Hp as (_ & _ & _ & La).
    apply last_labelled_Some in La
      as (before & k & bd & after & Hb & El & _).
    rewrite E in S.
    assert (Hin : In (k, bd) breeds)
      by (rewrite Hb; apply in_or_app; right; now left).
    pose proof (A k bd _ Hin El) as Hc. fold prefix in S.
    rewrite S in Hc. contradiction.
  - intros (k & bd & hp & Hin & He).
    assert (Hc : In (blank_candidate k bd hp) found).
    { unfold found. rewrite search_scan; rewrite E; [now apply A |].
      eapply scan_nonempty. eapply A; eauto. }
    rewrite Hr. destruct found as [|m [|m' rest]].
    + contradiction.
    + left. eauto.
    + right. do 3 eexists. split; [reflexivity |]. simpl. lia.
Qed.

End Claims.

(** * The properties at concrete inputs *)

(** ** Runs of the engine *)

Example run_exact_and_partial :
  search_breeds_on token_sort_ratio poodles "Poodle" "dog"
  = {| matches := [poodle_exact; toy_poodle_partial]; count := 2 |}.
Proof. reflexivity. Qed.

Example run_fuzzy :
  search_breeds_on token_sort_ratio twins "poodel" "dog"
  = {| matches := [poodle_b_fuzzy]; count := 1 |}.
Proof. vm_compute. reflexivity. Qed.

(** The fuzzy pass scores the query as typed: with this scorer a capital
    letter changes the result. *)
Example run_fuzzy_raw_query :
  outcome (fst (resolve_breed_code token_sort_ratio "dog" "poodel" (cold twins)))
  = Resolved "22" "poodle" "poodle-b"
  /\ outcome (fst (resolve_breed_code token_sort_ratio "dog" "Poodel" (cold twins)))
     = Failed NotFound.
Proof. split; vm_compute; reflexivity. Qed.

Example run_other_species :
  resolve_breed_code token_sort_ratio "Cat" "  labrador retriever " (cold kennel)
  = (Ok (single "8" "Labrador Retriever" "labrador-cat"), warm kennel).
Proof. reflexivity. Qed.

(** ** C1 *)

Lemma exact_excludes_fuzzy_witness :
  In ("poodle", dog_record "Poodle" "101") poodles
  /\ eligible_id (species_prefix "dog") (dog_record "Poodle" "101") = Some "101"
  /\ exact_hit (PyStr.strip (PyStr.lower "Poodle")) "poodle"
       (label_of (dog_record "Poodle" "101"))
  /\ matches (search_breeds_on token_sort_ratio poodles "Poodle" "dog")
     = scan "poodle" "Dog~" poodles.
Proof.
  assert (H1 : In ("poodle", dog_record "Poodle" "101") poodles)
    by (left; reflexivity).
  assert (H2 : eligible_id (species_prefix "dog") (dog_record "Poodle" "101")
               = Some "101") by reflexivity.
  assert (H3 : exact_hit (PyStr.strip (PyStr.lower "Poodle")) "poodle"
                 (label_of (dog_record "Poodle" "101")))
    by (left; reflexivity).
  split; [exact H1 |]. split; [exact H2 |]. split; [exact H3 |].
  exact (proj1 (exact_excludes_fuzzy token_sort_ratio poodles "Poodle" "dog"
                  "poodle" "101" (dog_record "Poodle" "101") H1 H2 H3)).
Defined.

(** C1 as stated fails: the record "Poodle" matches the query exactly,
    and the match list still holds the partial candidate "Toy Poodle". *)
Lemma short_circuit_counterexample :
  In ("poodle", dog_record "Poodle" "101") poodles
  /\ eligible_id (species_prefix "dog") (dog_record "Poodle" "101") = Some "101"
  /\ PyStr.lower "Poodle" = PyStr.strip (PyStr.lower "Poodle")
  /\ matches (search_breeds_on token_sort_ratio poodles "Poodle" "dog")
     = [poodle_exact; toy_poodle_partial]
  /\ ~ Forall (fun m => Match.match_type m = exact)
         (matches (search_breeds_on token_sort_ratio poodles "Poodle" "dog")).
Proof.
  split; [left; reflexivity |]. do 3 (split; [reflexivity |]).
  intros H. inversion H as [|? ? _ H']. inversion H' as [|? ? E _].
  discriminate E.
Qed.

(** ** C2 *)

Lemma empty_query_invalid_witness :
  valid_species "cat"
  /\ resolve_breed_code token_sort_ratio "cat" "" (cold kennel)
     = (Raise (HTTPException 400 "Breed name is required"), cold kennel).
Proof.
  assert (V : valid_species "cat") by (right; reflexivity).
  split; [exact V |].
  exact (proj1 (proj1 (empty_query_invalid token_sort_ratio "cat" ""
                         (cold kennel) V) eq_refl)).
Defined.

(** C2 as stated fails: a query of one space is blank, and the call
    returns a record instead of raising. *)
Lemma blank_query_counterexample :
  blank " " = true
  /\ valid_species "dog"
  /\ resolve_breed_code token_sort_ratio "dog" " " (cold kennel)
     = (Ok (single "7" "Labrador Retriever" "labrador-retriever"), warm kennel)
  /\ outcome (fst (resolve_breed_code token_sort_ratio "dog" " " (cold kennel)))
     <> Failed InvalidQuery.
Proof.
  split; [reflexivity |]. split; [left; reflexivity |].
  split; [reflexivity | discriminate].
Qed.

(** ** C3 *)

Lemma fuzzy_contract_witness :
  valid_species "dog"
  /\ scan (PyStr.strip (PyStr.lower "zzz")) (species_prefix "dog") twins = []
  /\ (forall k bd hp,
        In (k, bd) twins -> eligible_id (species_prefix "dog") bd = Some hp ->
        Qle (token_sort_ratio "zzz" (label_of bd)) (Qmake 70 1))
  /\ resolve_breed_code token_sort_ratio "dog" "zzz" (cold twins)
     = (Raise (HTTPException 404 (not_found_detail "zzz" "dog")), warm twins).
Proof.
  assert (V : valid_species "dog") by (left; reflexivity).
  assert (S : scan (PyStr.strip (PyStr.lower "zzz")) (species_prefix "dog")
                twins = []) by reflexivity.
  assert (Q : forall k bd hp,
             In (k, bd) twins ->
             eligible_id (species_prefix "dog") bd = Some hp ->
             Qle (token_sort_ratio "zzz" (label_of bd)) (Qmake 70 1)).
  { intros k bd hp [E|[E|[]]] _; injection E as _ <-;
      vm_compute; discriminate. }
  split; [exact V |]. split; [exact S |]. split; [exact Q |].
  assert (N : "zzz" <> "") by discriminate.
  exact (proj1 (proj2 (proj2 (proj2 (proj2
           (fuzzy_contract token_sort_ratio twins "zzz" "dog"))))
           "dog" (cold twins) (warm twins) V eq_refl N eq_refl S Q)).
Defined.

(** C3 as stated fails on its last clause: for the query "oo" both
    eligible labels score at most 70 (50 and 33.3), and the call returns
    the multiple-matches dictionary, not the 404, because both records
    contain the query. *)
Lemma fuzzy_threshold_counterexample :
  token_sort_ratio "oo" "Poodle" = Qmake 400 8
  /\ token_sort_ratio "oo" "Toy Poodle" = Qmake 400 12
  /\ (forall k bd hp,
        In (k, bd) poodles -> eligible_id (species_prefix "dog") bd = Some hp ->
        Qle (token_sort_ratio "oo" (label_of bd)) (Qmake 70 1))
  /\ resolve_breed_code token_sort_ratio "dog" "oo" (cold poodles)
     = (Ok (multiple 2
              [ {| Opt.label := "Poodle"; Opt.key := "poodle";
                   Opt.match_type := partial |};
                {| Opt.label := "Toy Poodle"; Opt.key := "toy-poodle";
                   Opt.match_type := partial |} ]
              "Found 2 breeds matching 'oo'. Please specify which breed you meant."),
        warm poodles)
  /\ outcome (fst (resolve_breed_code token_sort_ratio "dog" "oo"
                     (cold poodles)))
     <> Failed NotFound.
Proof.
  split; [vm_compute; reflexivity |]. split; [vm_compute; reflexivity |].
  split.
  { intros k bd hp [E|[E|[]]] _; injection E as _ <-;
      vm_compute; discriminate. }
  split; [reflexivity | discriminate].
Qed.

(** ** C4 *)

Lemma fuzzy_last_wins_witness :
  In poodle_b_fuzzy
     (matches (search_breeds_on token_sort_ratio twins "poodel" "dog"))
  /\ Match.match_type poodle_b_fuzzy = fuzzy
  /\ exists before bd after,
       twins = before ++ (Match.key poodle_b_fuzzy, bd) :: after
       /\ label_of bd = Match.label poodle_b_fuzzy
       /\ healthy_paws_value bd = Some (Match.breed_id poodle_b_fuzzy)
       /\ eligible_id (species_prefix "dog") bd
          = Some (Match.breed_id poodle_b_fuzzy)
       /\ (forall k' bd', In (k', bd') after ->
             label_of bd' = Match.label poodle_b_fuzzy ->
             eligible_id (species_prefix "dog") bd' = None).
Proof.
  assert (H : In poodle_b_fuzzy
                (matches (search_breeds_on token_sort_ratio twins "poodel"
                            "dog"))) by (vm_compute; left; reflexivity).
  split; [exact H |]. split; [reflexivity |].
  exact (fuzzy_last_wins token_sort_ratio twins "poodel" "dog" poodle_b_fuzzy
           H eq_refl).
Defined.

(** C4 as stated fails: two eligible records share the label "poodle";
    the fuzzy candidate carries the key and breed id of the second, not of
    the first one met. *)
Lemma first_wins_counterexample :
  NoDup (dict_keys twins)
  /\ scan (PyStr.strip (PyStr.lower "poodel")) (species_prefix "dog") twins = []
  /\ matches (search_breeds_on token_sort_ratio twins "poodel" "dog")
     = [poodle_b_fuzzy]
  /\ first_labelled (species_prefix "dog") "poodle" twins
     = Some {| Info.key := "poodle-a"; Info.breed_id := "11";
               Info.label := "poodle" |}
  /\ Match.key poodle_b_fuzzy <> "poodle-a"
  /\ Match.breed_id poodle_b_fuzzy <> "11".
Proof.
  split.
  { repeat constructor; simpl; intuition discriminate. }
  split; [reflexivity |]. split; [vm_compute; reflexivity |].
  split; [reflexivity |]. split; discriminate.
Qed.

(** ** C5 *)

Lemma cardinality_routing_witness :
  valid_species "dog" /\ "poodle" <> ""
  /\ load_breeds_cache (cold poodles) = (Ok poodles, warm poodles)
  /\ exists options,
       resolve_breed_code token_sort_ratio "dog" "poodle" (cold poodles)
       = (Ok (multiple 2 options
                "Found 2 breeds matching 'poodle'. Please specify which breed you meant."),
          warm poodles)
       /\ Forall2 (fun o m => Opt.label o = Match.label m
                              /\ Opt.key o = Match.key m
                              /\ Opt.match_type o = Match.match_type m)
                  options [poodle_exact; toy_poodle_partial].
Proof.
  assert (V : valid_species "dog") by (left; reflexivity).
  assert (N : "poodle" <> "") by discriminate.
  assert (L : load_breeds_cache (cold poodles) = (Ok poodles, warm poodles))
    by reflexivity.
  split; [exact V |]. split; [exact N |]. split; [exact L |].
  assert (G : 2 <= length (matches (search_breeds_on token_sort_ratio poodles
                                      "poodle" (PyStr.lower "dog"))))
    by (vm_compute; lia).
  destruct (proj2 (proj2 (cardinality_routing token_sort_ratio "dog"
                            "poodle" (cold poodles) (warm poodles) poodles
                            V N L)) G) as (options & H1 & _ & _ & H2).
  exists options. split; [exact H1 | exact H2].
Defined.

(** ** C6 *)

Lemma eligibility_isolation_witness :
  load_breeds_cache (cold kennel) = (Ok kennel, warm kennel)
  /\ fst (resolve_breed_code token_sort_ratio "Dog" "labrador retriever"
            (cold kennel))
     = Ok (single "7" "Labrador Retriever" "labrador-retriever")
  /\ eligible_record "Dog~" kennel "labrador-retriever" "Labrador Retriever" "7".
Proof.
  assert (L : load_breeds_cache (cold kennel) = (Ok kennel, warm kennel))
    by reflexivity.
  assert (R : fst (resolve_breed_code token_sort_ratio "Dog"
                     "labrador retriever" (cold kennel))
              = Ok (single "7" "Labrador Retriever" "labrador-retriever"))
    by reflexivity.
  split; [exact L |]. split; [exact R |].
  exact (proj2 (proj1 (proj2 (eligibility_isolation token_sort_ratio "Dog"
                                "labrador retriever" (cold kennel)
                                (warm kennel) kennel L))
                  "7" "Labrador Retriever" "labrador-retriever" R)).
Defined.

(** The cat that shares the dog's label stays out of a dog resolution. *)
Example run_isolation :
  matches (search_breeds_on token_sort_ratio kennel "Labrador Retriever" "dog")
  = [labrador_exact]
  /\ label_of (cat_record "Labrador Retriever" "8")
     = label_of (dog_record "Labrador Retriever" "7").
Proof. split; reflexivity. Qed.

(** ** C7 *)

Lemma query_normalization_witness :
  load_breeds_cache (cold kennel) = (Ok kennel, warm kennel)
  /\ scan "labrador retriever" "Dog~" kennel = [labrador_exact]
  /\ resolve_breed_code token_sort_ratio "dog" "Labrador Retriever" (cold kennel)
     = (Ok (single "7" "Labrador Retriever" "labrador-retriever"), warm kennel)
  /\ resolve_breed_code token_sort_ratio "dog" "labrador retriever" (cold kennel)
     = (Ok (single "7" "Labrador Retriever" "labrador-retriever"), warm kennel).
Proof.
  assert (L : load_breeds_cache (cold kennel) = (Ok kennel, warm kennel))
    by reflexivity.
  assert (S : scan "labrador retriever" "Dog~" kennel = [labrador_exact])
    by reflexivity.
  split; [exact L |]. split; [exact S |].
  exact (proj2 (query_normalization token_sort_ratio (cold kennel)
                  (warm kennel) kennel L) labrador_exact S).
Defined.

(** C7 as stated fails: the empty query and the query of one space differ
    in surrounding whitespace only, and have the same trimmed lower-cased
    form; the first is rejected, the second resolves. *)
Lemma normalization_counterexample :
  PyStr.strip (PyStr.lower "") = PyStr.strip (PyStr.lower " ")
  /\ resolve_breed_code token_sort_ratio "dog" "" (cold kennel)
     = (Raise (HTTPException 400 "Breed name is required"), cold kennel)
  /\ resolve_breed_code token_sort_ratio "dog" " " (cold kennel)
     = (Ok (single "7" "Labrador Retriever" "labrador-retriever"), warm kennel)
  /\ outcome (fst (resolve_breed_code token_sort_ratio "dog" "" (cold kennel)))
     <> outcome (fst (resolve_breed_code token_sort_ratio "dog" " "
                        (cold kennel))).
Proof.
  split; [reflexivity |]. split; [reflexivity |]. split; [reflexivity |].
  discriminate.
Qed.

(** ** C8 *)

Lemma invalid_species_witness :
  ("bird" = "" \/ (PyStr.lower "bird" <> "dog" /\ PyStr.lower "bird" <> "cat"))
  /\ outcome (fst (resolve_breed_code token_sort_ratio "bird" "poodle"
                     (cold poodles)))
     = Failed InvalidSpecies.
Proof.
  assert (H : "bird" = ""
              \/ (PyStr.lower "bird" <> "dog" /\ PyStr.lower "bird" <> "cat"))
    by (right; split; discriminate).
  split; [exact H |].
  destruct (invalid_species token_sort_ratio "bird" "poodle" (cold poodles) H)
    as (e & _ & O & _).
  exact O.
Defined.

(** ** C9 *)

Lemma load_idempotent_witness :
  load_breeds_cache (cold kennel) = (Ok kennel, warm kennel)
  /\ load_breeds_cache (warm kennel) = (Ok kennel, warm kennel)
  /\ (_ <- load_breeds_cache ;; load_breeds_cache) (cold kennel)
     = load_breeds_cache (cold kennel).
Proof.
  assert (L : load_breeds_cache (cold kennel) = (Ok kennel, warm kennel))
    by reflexivity.
  split; [exact L |].
  exact (proj2 (proj2 (proj2 (load_idempotent (cold kennel) (warm kennel)
                                kennel L)))).
Defined.

(** ** C10 *)

Lemma whitespace_query_witness :
  valid_species "dog" /\ " " <> "" /\ blank " " = true
  /\ load_breeds_cache (cold poodles) = (Ok poodles, warm poodles)
  /\ In (blank_candidate "toy-poodle" (dog_record "Toy Poodle" "102") "102")
        (matches (search_breeds_on token_sort_ratio poodles " "
                    (PyStr.lower "dog"))).
Proof.
  assert (V : valid_species "dog") by (left; reflexivity).
  assert (N : " " <> "") by discriminate.
  assert (B : blank " " = true) by reflexivity.
  assert (L : load_breeds_cache (cold poodles) = (Ok poodles, warm poodles))
    by reflexivity.
  split; [exact V |]. split; [exact N |]. split; [exact B |].
  split; [exact L |].
  refine (proj1 (proj2 (proj2 (whitespace_query token_sort_ratio "dog" " "
                                 (cold poodles) (warm poodles) poodles
                                 V N B L)))
            "toy-poodle" (dog_record "Toy Poodle" "102") "102" _ eq_refl).
  right. left. reflexivity.
Defined.

(** C10 as stated fails on "every eligible record is returned as a
    partial candidate": an eligible record whose entry has no label is
    returned as an exact candidate for the query of one space. *)
Lemma whitespace_partial_counterexample :
  blank " " = true /\ " " <> "" /\ valid_species "dog"
  /\ In ("mixed", {| bd_label := None;
                     bd_providers := Some [("HealthyPaws", "5");
                                           ("PrudentPet", "Dog~Mixed")] |})
        unlabelled
  /\ matches (search_breeds_on token_sort_ratio unlabelled " "
                (PyStr.lower "dog"))
     = [mixed_exact]
  /\ Match.match_type mixed_exact <> partial.
Proof.
  split; [reflexivity |]. split; [discriminate |].
  split; [left; reflexivity |]. split; [left; reflexivity |].
  split; [reflexivity | discriminate].
Qed.

(** ** The string operations on small inputs *)

Example strip_inner_space_kept :
  PyStr.strip (PyStr.lower "  Labrador  Retriever ") = "labrador  retriever".
Proof. reflexivity. Qed.

Example contains_inside : PyStr.contains "short hair" "domestic short hair" = true.
Proof. reflexivity. Qed.

Example contains_not_subsequence : PyStr.contains "poodel" "poodle" = false.
Proof. reflexivity. Qed.

Example token_sort_ratio_reordered :
  token_sort_ratio "retriever  labrador" "labrador retriever" = Qmake 3600 36.
Proof. vm_compute. reflexivity. Qed.

(** Partial containment: "Domestic Short Hair" is returned as a partial
    candidate for the query "short hair" when resolving for cat. *)
Example run_partial_containment :
  matches (search_breeds_on token_sort_ratio
             [("domestic-short-hair", cat_record "Domestic Short Hair" "31")]
             "short hair" "cat")
  = [ {| Match.key := "domestic-short-hair";
         Match.label := "Domestic Short Hair"; Match.breed_id := "31";
         Match.match_type := partial; Match.score := None |} ].
Proof. reflexivity. Qed.

(** * Further properties of the code *)

(** ** Sequences with elements left out *)

Lemma subseq_refl {A} (l : list A) : subseq l l.
Proof. induction l; constructor; assumption. Qed.

Lemma subseq_In {A} (l1 l2 : list A) (x : A) :
  subseq l1 l2 -> In x l1 -> In x l2.
Proof.
  induction 1 as [|y l1 l2 _ IH|y l1 l2 _ IH]; simpl; intros H.
  - contradiction.
  - right. now apply IH.
  - destruct H as [H|H]; [now left | right; now apply IH].
Qed.

Lemma subseq_NoDup {A} (l1 l2 : list A) :
  subseq l1 l2 -> NoDup l2 -> NoDup l1.
Proof.
  induction 1 as [|y l1 l2 S IH|y l1 l2 S IH]; intros N.
  - constructor.
  - inversion N; subst. now apply IH.
  - inversion N as [|? ? Hn N']; subst. constructor; [| now apply IH].
    intros H. apply Hn. eapply subseq_In; eauto.
Qed.

Lemma subseq_length {A} (l1 l2 : list A) :
  subseq l1 l2 -> length l1 <= length l2.
Proof. induction 1; simpl; lia. Qed.

Lemma subseq_empty {A} (l : list A) : subseq [] l.
Proof. induction l; constructor; assumption. Qed.

Lemma subseq_firstn {A} (n : nat) (l : list A) : subseq (firstn n l) l.
Proof.
  revert n. induction l as [|x l IH]; intros [|n]; simpl.
  - constructor.
  - constructor.
  - apply subseq_empty.
  - apply subseq_keep, IH.
Qed.

Lemma subseq_map {A B} (f : A -> B) (l1 l2 : list A) :
  subseq l1 l2 -> subseq (map f l1) (map f l2).
Proof. induction 1; simpl; constructor; assumption. Qed.

Lemma subseq_trans {A} (l1 l2 l3 : list A) :
  subseq l1 l2 -> subseq l2 l3 -> subseq l1 l3.
Proof.
  intros H12 H23. revert l1 H12.
  induction H23 as [|x l2 l3 _ IH|x l2 l3 _ IH]; intros l1 H12.
  - exact H12.
  - constructor. now apply IH.
  - inversion H12; subst; constructor; now apply IH.
Qed.

(** ** More on strings *)

Lemma lstrip_suffix (s : string) : exists a, s = (a ++ PyStr.lstrip s)%string.
Proof.
  induction s as [|c s [a IH]]; simpl.
  - now exists "".
  - destruct (PyStr.is_space c).
    + exists (String c a). simpl. now rewrite <- IH.
    + now exists "".
Qed.

Lemma rstrip_prefix (s : string) : exists b, s = (PyStr.rstrip s ++ b)%string.
Proof.
  induction s as [|c s [b IH]]; simpl.
  - now exists "".
  - destruct (PyStr.rstrip s) as [|c' t] eqn:E.
    + destruct (PyStr.is_space c).
      * exists (String c s). reflexivity.
      * exists b. simpl. simpl in IH. now rewrite <- IH.
    + exists b. simpl. simpl in IH. now rewrite <- IH.
Qed.

Lemma contains_of_prefix (n h : string) :
  String.prefix n h = true -> PyStr.contains n h = true.
Proof. destruct h; cbn [PyStr.contains]; now intros ->. Qed.

Lemma contains_prefix (n b : string) : PyStr.contains n (n ++ b) = true.
Proof. apply contains_of_prefix, prefix_app. Qed.

Lemma contains_app (n a b : string) :
  PyStr.contains n (a ++ n ++ b) = true.
Proof.
  induction a as [|c a IH].
  - exact (contains_prefix n b).
  - change (String c a ++ n ++ b)%string with (String c (a ++ n ++ b)).
    cbn [PyStr.contains]. rewrite IH. apply orb_true_r.
Qed.

(** The trimmed string occurs in the string. *)
Lemma contains_strip (s : string) : PyStr.contains (PyStr.strip s) s = true.
Proof.
  unfold PyStr.strip. destruct (lstrip_suffix s) as [a Ha].
  destruct (rstrip_prefix (PyStr.lstrip s)) as [b Hb].
  rewrite Ha at 2. rewrite Hb at 2. apply contains_app.
Qed.

Lemma truthy_lower (s : string) : PyStr.truthy (PyStr.lower s) = PyStr.truthy s.
Proof. destruct s; reflexivity. Qed.

(** ** More on dictionaries *)

Section DictKeys.
Context {V : Type}.
Implicit Types (d : dict V) (k : string) (v : V).

Lemma dict_get_In k v d : dict_get k d = Some v -> In k (dict_keys d).
Proof.
  induction d as [|[k' v'] d IH]; simpl; [discriminate |].
  destruct (String.eqb_spec k' k) as [E|E]; [now left | right; now apply IH].
Qed.

(** Assignment keeps the keys, or adds the new key at the end. *)
Lemma dict_set_keys k v d :
  (In k (dict_keys d) /\ dict_keys (dict_set k v d) = dict_keys d)
  \/ (~ In k (dict_keys d) /\ dict_keys (dict_set k v d) = dict_keys d ++ [k]).
Proof.
  induction d as [|[k' v'] d IH]; simpl.
  - right. split; [tauto | reflexivity].
  - destruct (String.eqb_spec k' k) as [E|E]; simpl.
    + left. split; [now left | reflexivity].
    + destruct IH as [[H1 H2]|[H1 H2]].
      * left. split; [now right | now rewrite H2].
      * right. split; [| now rewrite H2]. intros [H|H]; tauto.
Qed.

Lemma dict_set_NoDup k v d :
  NoDup (dict_keys d) -> NoDup (dict_keys (dict_set k v d)).
Proof.
  intros N. destruct (dict_set_keys k v d) as [[_ ->]|[H ->]]; [exact N |].
  apply NoDup_app; [exact N | repeat constructor; simpl; tauto |].
  intros x Hx [<-|[]]. contradiction.
Qed.

End DictKeys.

(** ** The first loop of [search_breeds]: order, size, no repetition *)

Lemma scan_keys_subseq (q prefix : string) (breeds : table) :
  subseq (map Match.key (scan q prefix breeds)) (dict_keys breeds).
Proof.
  induction breeds as [|[k bd] rest IH]; cbn [scan].
  - constructor.
  - destruct (scan_record q prefix (k, bd)) as [m|] eqn:E.
    + apply scan_record_Some in E as (<- & _). simpl.
      now apply subseq_keep.
    + simpl. now apply subseq_skip.
Qed.

(** The candidates of the first loop follow the table: their keys are
    keys of the table in table order, each at most once, so the list is
    no longer than the table and repeats no key when the table does not. *)
Theorem first_loop_in_table_order (q prefix : string) (breeds : table) :
  subseq (map Match.key (scan q prefix breeds)) (dict_keys breeds)
  /\ length (scan q prefix breeds) <= length breeds
  /\ (NoDup (dict_keys breeds) ->
      NoDup (map Match.key (scan q prefix breeds))).
Proof.
  pose proof (scan_keys_subseq q prefix breeds) as S.
  split; [exact S |]. split.
  - apply subseq_length in S. unfold dict_keys in S.
    now rewrite !length_map in S.
  - intros N. eapply subseq_NoDup; eauto.
Qed.

(** ** The label dictionary of the fuzzy pass *)

Lemma fold_labels_keys (prefix : string) (breeds : table) :
  forall acc : dict Info.t,
  exists fresh,
    dict_keys (fold_left (add_label prefix) breeds acc)
    = dict_keys acc ++ fresh
    /\ subseq fresh (table_labels breeds).
Proof.
  induction breeds as [|[k bd] rest IH]; intros acc; cbn [fold_left].
  - exists []. split; [now rewrite app_nil_r | constructor].
  - destruct (IH (add_label prefix acc (k, bd))) as (fresh & E & S).
    assert (K : dict_keys (add_label prefix acc (k, bd)) = dict_keys acc
                \/ dict_keys (add_label prefix acc (k, bd))
                   = dict_keys acc ++ [label_of bd]).
    { unfold add_label. destruct (eligible_id prefix bd) as [hp|];
        [| now left].
      destruct (dict_set_keys (label_of bd)
                  {| Info.key := k; Info.breed_id := hp;
                     Info.label := label_of bd |} acc)
        as [[_ K]|[_ K]]; rewrite K; auto. }
    destruct K as [K|K]; rewrite K in E.
    + exists fresh. split; [exact E |]. now apply subseq_skip.
    + exists (label_of bd :: fresh). split.
      * now rewrite E, <- app_assoc.
      * now apply subseq_keep.
Qed.

Lemma fold_labels_NoDup (prefix : string) (breeds : table) :
  forall acc : dict Info.t,
    NoDup (dict_keys acc) ->
    NoDup (dict_keys (fold_left (add_label prefix) breeds acc)).
Proof.
  induction breeds as [|[k bd] rest IH]; intros acc N; cbn [fold_left].
  - exact N.
  - apply IH. unfold add_label.
    destruct (eligible_id prefix bd); [now apply dict_set_NoDup | exact N].
Qed.

Lemma last_labelled_complete (prefix l k : string) (bd : breed_data)
    (hp : string) (breeds : table) :
  In (k, bd) breeds -> eligible_id prefix bd = Some hp -> label_of bd = l ->
  exists i, last_labelled prefix l breeds = Some i.
Proof.
  intros Hin He Hl.
  destruct (last_labelled prefix l breeds) as [i|] eqn:E; [now exists i |].
  rewrite (last_labelled_None _ _ _ E k bd Hin Hl) in He. discriminate.
Qed.

Lemma filter_true_all {A} (l : list A) : filter (fun _ => true) l = l.
Proof. induction l as [|x l IH]; simpl; [reflexivity | now rewrite IH]. Qed.

Lemma filter_twice {A} (p q r : A -> bool) (l : list A) :
  (forall y, r y = q y && p y) -> filter r l = filter p (filter q l).
Proof.
  intros H. induction l as [|x l IH]; simpl; [reflexivity |].
  rewrite H. destruct (q x); simpl; [| exact IH].
  destruct (p x); now rewrite IH.
Qed.

Lemma existsb_eqb_In (y : string) (l : list string) :
  existsb (String.eqb y) l = true <-> In y l.
Proof.
  rewrite existsb_exists. split.
  - intros (x & Hx & E). apply String.eqb_eq in E. now subst.
  - intros H. exists y. split; [exact H | apply String.eqb_refl].
Qed.

Lemma dict_set_keys_test {V} (k : string) (v : V) (d : dict V) :
  dict_keys (dict_set k v d)
  = if existsb (String.eqb k) (dict_keys d) then dict_keys d
    else dict_keys d ++ [k].
Proof.
  destruct (dict_set_keys k v d) as [[H ->]|[H ->]].
  - apply existsb_eqb_In in H. now rewrite H.
  - destruct (existsb (String.eqb k) (dict_keys d)) eqn:E; [| reflexivity].
    apply existsb_eqb_In in E. contradiction.
Qed.

(** The keys after the second loop: the keys before it, then the eligible
    labels that are new, each where it first occurs. *)
Lemma fold_labels_first (prefix : string) (breeds : table) :
  forall acc : dict Info.t,
    dict_keys (fold_left (add_label prefix) breeds acc)
    = dict_keys acc
      ++ filter (fun y => negb (existsb (String.eqb y) (dict_keys acc)))
           (first_occurrences (eligible_labels prefix breeds)).
Proof.
  induction breeds as [|[k bd] rest IH]; intros acc; cbn [fold_left].
  - simpl. now rewrite app_nil_r.
  - rewrite IH. unfold add_label, eligible_labels. cbn [flat_map snd].
    fold (eligible_labels prefix rest).
    destruct (eligible_id prefix bd) as [hp|]; [| reflexivity].
    cbn [app first_occurrences filter].
    rewrite dict_set_keys_test.
    destruct (existsb (String.eqb (label_of bd)) (dict_keys acc)) eqn:E.
    + cbn [negb]. f_equal. apply filter_twice. intros y.
      destruct (String.eqb_spec y (label_of bd)) as [->|N]; simpl.
      * now rewrite E.
      * reflexivity.
    + cbn [negb]. rewrite <- app_assoc. cbn [app]. do 2 f_equal.
      apply filter_twice. intros y. rewrite existsb_app. simpl.
      rewrite orb_false_r, negb_orb. apply andb_comm.
Qed.

(** The second loop leaves a dictionary whose keys are the labels of the
    eligible records of the species, each once, at the place of its first
    occurrence in the table (a label met again keeps its place, only its
    value is replaced); every value carries its key as label and describes
    an eligible record of the table with that label. *)
Theorem label_dictionary (prefix : string) (breeds : table) :
  let breed_labels := build_labels prefix breeds in
  dict_keys breed_labels
  = first_occurrences (eligible_labels prefix breeds)
  /\ NoDup (dict_keys breed_labels)
  /\ subseq (dict_keys breed_labels) (table_labels breeds)
  /\ (forall l,
        In l (dict_keys breed_labels) <->
        exists k bd hp,
          In (k, bd) breeds /\ eligible_id prefix bd = Some hp
          /\ label_of bd = l)
  /\ (forall l i,
        dict_get l breed_labels = Some i ->
        Info.label i = l
        /\ eligible_record prefix breeds (Info.key i) l (Info.breed_id i)).
Proof.
  intros breed_labels. unfold breed_labels.
  assert (V : forall l i,
             dict_get l (build_labels prefix breeds) = Some i ->
             Info.label i = l
             /\ eligible_record prefix breeds (Info.key i) l (Info.breed_id i)).
  { intros l i G. rewrite build_labels_get in G.
    apply last_labelled_Some in G
      as (before & k & bd & after & -> & El & Hl & Hk & Hi & _).
    split; [exact Hi |]. rewrite Hk, <- Hl.
    apply eligible_id_record; [| exact El].
    apply in_or_app. right. now left. }
  split; [| split; [| split; [| split; [| exact V]]]].
  - unfold build_labels. rewrite fold_labels_first. simpl.
    apply filter_true_all.
  - unfold build_labels. apply fold_labels_NoDup. constructor.
  - unfold build_labels.
    destruct (fold_labels_keys prefix breeds []) as (fresh & -> & S).
    exact S.
  - intros l. split.
    + intros H. apply dict_get_keys in H as [i G].
      rewrite build_labels_get in G.
      apply last_labelled_Some in G
        as (before & k & bd & after & -> & El & Hl & _).
      exists k, bd, (Info.breed_id i). repeat split; auto.
      apply in_or_app. right. now left.
    + intros (k & bd & hp & Hin & He & Hl).
      destruct (last_labelled_complete _ _ _ _ _ _ Hin He Hl) as [i G].
      rewrite <- build_labels_get in G. eapply dict_get_In; eauto.
Qed.

(** ** No breed twice in the match list *)

Lemma insert_desc_perm (x : hit) (l : list hit) :
  Permutation (insert_desc x l) (x :: l).
Proof.
  induction l as [|y l IH]; simpl.
  - apply Permutation_refl.
  - destruct (Qle_bool (hit_score y) (hit_score x)).
    + apply Permutation_refl.
    + eapply Permutation_trans; [apply perm_skip, IH | apply perm_swap].
Qed.

Lemma sort_desc_perm (l : list hit) : Permutation (sort_desc l) l.
Proof.
  induction l as [|x l IH]; simpl.
  - constructor.
  - eapply Permutation_trans; [apply insert_desc_perm | now apply perm_skip].
Qed.

Lemma map_fst_combine_seq {A} (l : list A) :
  forall s, map fst (combine l (seq s (length l))) = l.
Proof.
  induction l as [|x l IH]; intros s; simpl; [reflexivity |].
  now rewrite IH.
Qed.

Lemma NoDup_map_via {A B C} (f : A -> B) (g : A -> C) (l : list A) :
  NoDup (map g l) ->
  (forall a b, In a l -> In b l -> f a = f b -> g a = g b) ->
  NoDup (map f l).
Proof.
  induction l as [|a l IH]; simpl; intros N H.
  - constructor.
  - inversion N as [|? ? Hn N']; subst. constructor.
    + intros Hin. apply in_map_iff in Hin as (b & Hb & Hin).
      apply Hn. apply in_map_iff. exists b. split; [| exact Hin].
      symmetry. apply H; auto.
    + apply IH; [exact N' |]. intros; apply H; auto.
Qed.

Lemma fuzzy_labels_subseq (labels : dict Info.t) (hits : list hit) :
  (forall l i, dict_get l labels = Some i -> Info.label i = l) ->
  subseq (map Match.label (flat_map (fuzzy_match labels) hits))
         (map hit_label hits).
Proof.
  intros Hd. induction hits as [|h hits IH]; simpl.
  - constructor.
  - destruct h as [[l s] n]. unfold fuzzy_match at 1. cbn [hit_label fst].
    destruct (above_70 s); [| simpl; now apply subseq_skip].
    destruct (dict_get l labels) as [i|] eqn:G;
      [| simpl; now apply subseq_skip].
    simpl. rewrite (Hd _ _ G). now apply subseq_keep.
Qed.

(** A failed load is not remembered: once the file can be read, the next
    call reads it, returns its table and caches it. *)
Theorem load_recovers (w w1 : world) (e : exn) (breeds : table) :
  load_breeds_cache w = (Raise e, w1) ->
  e = LoadError
  /\ load_breeds_cache
       {| disk := Some breeds; BREEDS_CACHE := BREEDS_CACHE w1;
          reads := reads w1 |}
     = (Ok breeds,
        {| disk := Some breeds; BREEDS_CACHE := Some breeds;
           reads := S (reads w1) |}).
Proof.
  unfold load_breeds_cache at 1.
  destruct (BREEDS_CACHE w) as [t|]; [discriminate |].
  destruct (disk w) as [t|]; [discriminate |].
  intros [= <- <-]. split; reflexivity.
Qed.

Section Further.

Variable scorer : string -> string -> Q.

Lemma extract_labels_NoDup (query : string) (choices : list string)
    (limit : nat) :
  NoDup choices ->
  NoDup (map hit_label (extract scorer query choices limit)).
Proof.
  intros N. unfold extract.
  eapply subseq_NoDup; [apply subseq_map, subseq_firstn |].
  eapply Permutation_NoDup;
    [apply Permutation_map, Permutation_sym, sort_desc_perm |].
  rewrite map_map. cbn [hit_label fst].
  rewrite <- (map_fst_combine_seq choices 0) in N.
  exact N.
Qed.

Lemma build_labels_value_label (prefix l : string) (breeds : table)
    (i : Info.t) :
  dict_get l (build_labels prefix breeds) = Some i -> Info.label i = l.
Proof.
  intros G. rewrite build_labels_get in G.
  now apply last_labelled_Some in G as (_ & _ & _ & _ & _ & _ & _ & _ & H & _).
Qed.

Lemma fuzzy_pass_labels_NoDup (breed_name prefix : string) (breeds : table) :
  NoDup (map Match.label (fuzzy_pass scorer breed_name prefix breeds)).
Proof.
  unfold fuzzy_pass.
  assert (N : NoDup (dict_keys (build_labels prefix breeds)))
    by (apply fold_labels_NoDup; constructor).
  pose proof (fun l i => build_labels_value_label prefix l breeds i) as V.
  destruct (build_labels prefix breeds) as [|x d] eqn:E; [constructor |].
  eapply subseq_NoDup.
  - apply fuzzy_labels_subseq. exact V.
  - now apply extract_labels_NoDup.
Qed.

(** Whichever pass produced it, the match list names no breed key twice
    when the keys of the table are distinct; in the fuzzy pass this rests
    on [extract] returning each choice at most once. *)
Theorem no_breed_twice (breeds : table) (q sp : string) :
  NoDup (dict_keys breeds) ->
  NoDup (map Match.key (matches (search_breeds_on scorer breeds q sp))).
Proof.
  intros N.
  destruct (scan (PyStr.strip (PyStr.lower q)) (species_prefix sp) breeds)
    as [|x l] eqn:E.
  - rewrite search_fuzzy by exact E.
    apply NoDup_map_via with (g := Match.label);
      [apply fuzzy_pass_labels_NoDup |].
    intros a b Ha Hb Hk.
    apply fuzzy_pass_In in Ha as (_ & _ & _ & La).
    apply fuzzy_pass_In in Hb as (_ & _ & _ & Lb).
    apply last_labelled_Some in La
      as (b1 & k1 & bd1 & a1 & E1 & _ & Hl1 & Hk1 & _).
    apply last_labelled_Some in Lb
      as (b2 & k2 & bd2 & a2 & E2 & _ & Hl2 & Hk2 & _).
    simpl in Hk1, Hk2. subst k1 k2.
    assert (I1 : In (Match.key a, bd1) breeds)
      by (rewrite E1; apply in_or_app; right; now left).
    assert (I2 : In (Match.key a, bd2) breeds)
      by (rewrite Hk, E2; apply in_or_app; right; now left).
    rewrite <- Hl1, <- Hl2. f_equal. eapply unique_key; eauto.
  - rewrite search_scan by (rewrite E; discriminate).
    eapply subseq_NoDup; [apply scan_keys_subseq | exact N].
Qed.

(** With no eligible record of the species in the table (the empty table
    included) [search_breeds] returns no match and count 0 for every
    query, the empty one included, and [resolve_breed_code] raises the 404
    for every non-empty query. *)
Theorem no_eligible_not_found (species : string) (breeds : table) :
  (forall k bd, In (k, bd) breeds ->
                eligible_id (species_prefix species) bd = None) ->
  (forall q,
     search_breeds_on scorer breeds q species
     = {| matches := []; count := 0 |})
  /\ (forall sp q w w',
        PyStr.lower sp = species -> valid_species sp -> q <> "" ->
        load_breeds_cache w = (Ok breeds, w') ->
        resolve_breed_code scorer sp q w
        = (Raise (HTTPException 404 (not_found_detail q species)), w')).
Proof.
  intros H.
  assert (F : forall q,
             matches (search_breeds_on scorer breeds q species) = []).
  { intros q.
    assert (S : scan (PyStr.strip (PyStr.lower q)) (species_prefix species)
                  breeds = []).
    { destruct (scan _ _ breeds) as [|m l] eqn:E; [reflexivity |].
      assert (Hm : In m (scan (PyStr.strip (PyStr.lower q))
                           (species_prefix species) breeds))
        by (rewrite E; now left).
      apply scan_In in Hm as (k & bd & Hin & Hr).
      apply scan_record_Some in Hr as (_ & _ & El & _).
      rewrite (H k bd Hin) in El. discriminate. }
    rewrite search_fuzzy by exact S. apply fuzzy_pass_nil.
    intros k bd hp Hin El. rewrite (H k bd Hin) in El. discriminate. }
  split.
  - intros q.
    change (search_breeds_on scorer breeds q species)
      with {| matches := matches (search_breeds_on scorer breeds q species);
              count := length (matches (search_breeds_on scorer breeds q
                                          species)) |}.
    now rewrite F.
  - intros sp q w w' <- V Hq L.
    rewrite (resolve_loaded scorer _ _ _ _ _ V Hq L), route_search, F.
    reflexivity.
Qed.

(** Submitting the label of an eligible record as the query finds that
    record in the first loop, as an exact or a partial candidate; so for a
    non-empty label [resolve_breed_code] returns that record, or the
    multiple-matches dictionary with that record among the options. *)
Theorem label_resubmission (sp k hp : string) (bd : breed_data)
    (w w' : world) (breeds : table) :
  valid_species sp ->
  load_breeds_cache w = (Ok breeds, w') ->
  In (k, bd) breeds ->
  eligible_id (species_prefix (PyStr.lower sp)) bd = Some hp ->
  exists mt,
    mt <> fuzzy
    /\ In {| Match.key := k; Match.label := label_of bd;
             Match.breed_id := hp; Match.match_type := mt;
             Match.score := None |}
          (matches (search_breeds_on scorer breeds (label_of bd)
                      (PyStr.lower sp)))
    /\ (label_of bd <> "" ->
        resolve_breed_code scorer sp (label_of bd) w
        = (Ok (single hp (label_of bd) k), w')
        \/ exists n options message,
             resolve_breed_code scorer sp (label_of bd) w
             = (Ok (multiple n options message), w')
             /\ In {| Opt.label := label_of bd; Opt.key := k;
                      Opt.match_type := mt |} options).
Proof.
  intros V L Hin El.
  set (q' := PyStr.strip (PyStr.lower (label_of bd))).
  set (prefix := species_prefix (PyStr.lower sp)) in *.
  assert (R : exists mt,
             mt <> fuzzy
             /\ scan_record q' prefix (k, bd)
                = Some {| Match.key := k; Match.label := label_of bd;
                          Match.breed_id := hp; Match.match_type := mt;
                          Match.score := None |}).
  { unfold scan_record. rewrite El.
    destruct (String.eqb (PyStr.lower (label_of bd)) q' || String.eqb k q').
    - exists exact. split; [discriminate | reflexivity].
    - unfold q'. rewrite contains_strip. simpl.
      exists partial. split; [discriminate | reflexivity]. }
  destruct R as (mt & Hmt & R). exists mt. split; [exact Hmt |].
  set (m := {| Match.key := k; Match.label := label_of bd;
               Match.breed_id := hp; Match.match_type := mt;
               Match.score := None |}) in *.
  assert (Hs : In m (scan q' prefix breeds)).
  { apply scan_In. exists k, bd. auto. }
  assert (Hf : matches (search_breeds_on scorer breeds (label_of bd)
                          (PyStr.lower sp)) = scan q' prefix breeds).
  { apply search_scan. eapply scan_nonempty; eauto. }
  split; [now rewrite Hf |].
  intros Hq.
  rewrite (resolve_loaded scorer _ _ _ _ _ V Hq L), route_search, Hf.
  destruct (scan q' prefix breeds) as [|m1 [|m2 rest]] eqn:E.
  - contradiction.
  - left. destruct Hs as [->|[]]. reflexivity.
  - right. do 3 eexists. split; [reflexivity |].
    change (In (option_of m) (map option_of (m1 :: m2 :: rest))).
    now apply in_map.
Qed.

(** The species is compared in lower case and used in lower case from
    then on: two spellings with the same lower-case form give the same
    result and the same state, for every query. *)
Theorem species_case_insensitive (sp1 sp2 q : string) (w : world) :
  PyStr.lower sp1 = PyStr.lower sp2 ->
  resolve_breed_code scorer sp1 q w = resolve_breed_code scorer sp2 q w.
Proof.
  intros H. unfold resolve_breed_code.
  rewrite <- (truthy_lower sp1), <- (truthy_lower sp2), H.
  reflexivity.
Qed.


(** On a process whose cache is filled, [resolve_breed_code] changes
    nothing and does not depend on the file: no input makes it open the
    file or touch the cache. *)
Theorem warm_resolve_read_only (sp q : string) (w : world) (breeds : table) :
  BREEDS_CACHE w = Some breeds ->
  snd (resolve_breed_code scorer sp q w) = w
  /\ forall other,
       fst (resolve_breed_code scorer sp q
              {| disk := other; BREEDS_CACHE := BREEDS_CACHE w;
                 reads := reads w |})
       = fst (resolve_breed_code scorer sp q w).
Proof.
  intros C.
  destruct (valid_species_dec sp) as [V|N].
  - destruct (string_dec q "") as [->|Hq].
    + split; [| intros other]; rewrite !resolve_empty_query by exact V;
        reflexivity.
    + pose proof (load_cached w breeds C) as L. split.
      * rewrite (resolve_loaded scorer _ _ _ _ _ V Hq L), route_search.
        now destruct (matches _) as [|m [|m' rest]].
      * intros other.
        assert (L' : load_breeds_cache
                       {| disk := other; BREEDS_CACHE := BREEDS_CACHE w;
                          reads := reads w |}
                     = (Ok breeds,
                        {| disk := other; BREEDS_CACHE := BREEDS_CACHE w;
                           reads := reads w |}))
          by (apply load_cached; exact C).
        rewrite (resolve_loaded scorer _ _ _ _ _ V Hq L), route_search.
        rewrite (resolve_loaded scorer _ _ _ _ _ V Hq L'), route_search.
        now destruct (matches _) as [|m [|m' rest]].
  - destruct (resolve_invalid_species scorer sp N) as (e & _ & _ & R).
    split; [| intros other]; rewrite !R; reflexivity.
Qed.

(** The inputs are checked before the table is asked for.  On a cold
    process whose file cannot be read, a call with a valid species and a
    non-empty query raises the loader's failure after one attempt to read
    the file, and caches nothing; a call with a bad species or an empty
    query raises its input error and does not touch the file. *)
Theorem inputs_checked_before_load (sp q : string) (w : world) :
  BREEDS_CACHE w = None -> disk w = None ->
  (valid_species sp -> q <> "" ->
   resolve_breed_code scorer sp q w
   = (Raise LoadError,
      {| disk := None; BREEDS_CACHE := None; reads := S (reads w) |})
   /\ outcome (fst (resolve_breed_code scorer sp q w))
      = Failed DataUnavailable)
  /\ ((PyStr.lower sp <> "dog" /\ PyStr.lower sp <> "cat") \/ q = "" ->
      exists e,
        resolve_breed_code scorer sp q w = (Raise e, w)
        /\ e <> LoadError
        /\ (classify e = InvalidSpecies \/ classify e = InvalidQuery)).
Proof.
  intros C D. split.
  - intros V Hq.
    assert (L : load_breeds_cache w
                = (Raise LoadError,
                   {| disk := None; BREEDS_CACHE := None;
                      reads := S (reads w) |})).
    { unfold load_breeds_cache. now rewrite C, D. }
    rewrite (resolve_load_error scorer _ _ _ _ _ V Hq L). auto.
  - intros H. destruct (valid_species_dec sp) as [V|N].
    + destruct H as [[Hd Hc]| ->].
      * exfalso. destruct V; contradiction.
      * rewrite resolve_empty_query by exact V. eexists.
        split; [reflexivity |]. split; [discriminate | now right].
    + destruct (resolve_invalid_species scorer sp N) as (e & Cl & _ & R).
      exists e. rewrite R. split; [reflexivity |]. split; [| now left].
      intros ->. discriminate.
Qed.

End Further.

(** ** [get_policy] *)

Section PolicyFacts.

Variable scorer : string -> string -> Q.
Variable R : Type.
Variable quote : quote_request -> string + R.

Lemma session_eta (s : session) :
  {| process := process s; quote_runs := quote_runs s |} = s.
Proof. now destruct s. Qed.

(** [get_policy] when the breed resolution raises. *)
Lemma policy_resolve_raises (sp q : string) (s : session) (w' : world)
    (e : exn) (date_of_birth gender : string) (spayed : bool)
    (zip_code state_code pet_name email : string) :
  resolve_breed_code scorer sp q (process s) = (Raise e, w') ->
  get_policy scorer R quote date_of_birth gender sp q spayed zip_code
    state_code pet_name email s
  = (Raise e, {| process := w'; quote_runs := quote_runs s |}).
Proof.
  intros H. unfold get_policy, bindP, on_process. now rewrite H.
Qed.

(** The breed comes first.  An invalid species, an empty breed name, a
    query without any match or a breed file that cannot be read makes
    [get_policy] raise that error, whatever the other fields hold (an
    empty date of birth, gender or zip code included), and the [try] block
    is not entered: no quote request is recorded. *)
Theorem policy_breed_errors_first (sp q : string) (s : session)
    (date_of_birth gender : string) (spayed : bool)
    (zip_code state_code pet_name email : string) :
  let r := get_policy scorer R quote date_of_birth gender sp q spayed
             zip_code state_code pet_name email s in
  (PyStr.lower sp <> "dog" /\ PyStr.lower sp <> "cat" ->
   exists e, classify e = InvalidSpecies /\ r = (Raise e, s))
  /\ (valid_species sp -> q = "" ->
      r = (Raise (HTTPException 400 "Breed name is required"), s))
  /\ (forall breeds w',
        valid_species sp -> q <> "" ->
        load_breeds_cache (process s) = (Ok breeds, w') ->
        matches (search_breeds_on scorer breeds q (PyStr.lower sp)) = [] ->
        r = (Raise (HTTPException 404
                      (not_found_detail q (PyStr.lower sp))),
             {| process := w'; quote_runs := quote_runs s |}))
  /\ (forall w',
        valid_species sp -> q <> "" ->
        load_breeds_cache (process s) = (Raise LoadError, w') ->
        r = (Raise LoadError,
             {| process := w'; quote_runs := quote_runs s |})).
Proof.
  intros r. subst r. split; [| split; [| split]].
  - intros N.
    destruct (resolve_invalid_species scorer sp N) as (e & C & _ & H).
    exists e. split; [exact C |].
    rewrite (policy_resolve_raises sp q s (process s) e) by apply H.
    now rewrite session_eta.
  - intros V ->.
    rewrite (policy_resolve_raises sp "" s (process s)
               (HTTPException 400 "Breed name is required"))
      by now apply resolve_empty_query.
    now rewrite session_eta.
  - intros breeds w' V Hq L F.
    apply policy_resolve_raises.
    rewrite (resolve_loaded scorer _ _ _ _ _ V Hq L), route_search, F.
    reflexivity.
  - intros w' V Hq L. apply policy_resolve_raises.
    now apply resolve_load_error.
Qed.

(** Two or more candidates: [get_policy] returns the
    ["multiple_breeds_found"] dictionary with the number of candidates
    and, one by one and in order, the label, key and match type of each,
    whatever the other fields hold (an empty date of birth, gender or zip
    code included); the [try] block is not entered. *)
Theorem policy_ambiguous (sp q : string) (s : session) (w' : world)
    (breeds : table) (date_of_birth gender : string) (spayed : bool)
    (zip_code state_code pet_name email : string) :
  valid_species sp -> q <> "" ->
  load_breeds_cache (process s) = (Ok breeds, w') ->
  let found := matches (search_breeds_on scorer breeds q (PyStr.lower sp)) in
  2 <= length found ->
  exists options,
    get_policy scorer R quote date_of_birth gender sp q spayed zip_code
      state_code pet_name email s
    = (Ok (multiple_breeds_found (multiple_message (length found) q)
             (length found) options rerun_instruction),
       {| process := w'; quote_runs := quote_runs s |})
    /\ Forall2 (fun o m => Opt.label o = Match.label m
                           /\ Opt.key o = Match.key m
                           /\ Opt.match_type o = Match.match_type m)
               options found.
Proof.
  intros V Hq L found Hlen. exists (map option_of found).
  split; [| apply options_follow].
  unfold get_policy, bindP, on_process.
  rewrite (resolve_loaded scorer _ _ _ _ _ V Hq L), route_search. fold found.
  destruct found as [|m [|m' rest]]; simpl in Hlen; try lia.
  reflexivity.
Qed.

(** One candidate, a field missing: [get_policy] raises a 400 for the
    first failing check in the order date of birth, gender, zip code.  The
    gender is accepted in any letter case; the check of the spayed flag
    never fires on a boolean; the [try] block is not entered. *)
Theorem policy_field_checks (sp q b l k : string) (s : session) (w' : world)
    (date_of_birth gender : string) (spayed : bool)
    (zip_code state_code pet_name email : string) :
  resolve_breed_code scorer sp q (process s) = (Ok (single b l k), w') ->
  date_of_birth = ""
  \/ (PyStr.lower gender <> "male" /\ PyStr.lower gender <> "female")
  \/ zip_code = "" ->
  exists detail,
    get_policy scorer R quote date_of_birth gender sp q spayed zip_code
      state_code pet_name email s
    = (Raise (HTTPException 400 detail),
       {| process := w'; quote_runs := quote_runs s |})
    /\ (date_of_birth = "" -> detail = "Date of birth is required")
    /\ (date_of_birth <> "" ->
        PyStr.lower gender <> "male" /\ PyStr.lower gender <> "female" ->
        detail = "Gender is required and must be 'male' or 'female'")
    /\ (date_of_birth <> "" ->
        PyStr.lower gender = "male" \/ PyStr.lower gender = "female" ->
        detail = "Zip code is required").
Proof.
  intros H Bad. unfold get_policy, bindP, on_process. rewrite H.
  destruct (string_dec date_of_birth "") as [->|Hd].
  - eexists. split; [reflexivity |]. split; [intros _; reflexivity |].
    split; intros C; now contradiction C.
  - apply truthy_true in Hd as Td. rewrite Td. cbn [negb].
    destruct (String.eqb_spec (PyStr.lower gender) "male") as [Gm|Gm].
    + assert (Tg : PyStr.truthy gender = true).
      { rewrite <- truthy_lower, Gm. reflexivity. }
      rewrite Tg. cbn [negb orb].
      destruct Bad as [E|[[N _]|E]]; try contradiction.
      subst zip_code.
      exists "Zip code is required".
      split; [destruct spayed; reflexivity |].
      split; [intros C; contradiction |].
      split; [intros _ [N _]; contradiction | intros _ _; reflexivity].
    + destruct (String.eqb_spec (PyStr.lower gender) "female") as [Gf|Gf].
      * assert (Tg : PyStr.truthy gender = true).
        { rewrite <- truthy_lower, Gf. reflexivity. }
        rewrite Tg. cbn [negb orb].
        destruct Bad as [E|[[_ N]|E]]; try contradiction.
        subst zip_code.
        exists "Zip code is required".
        split; [destruct spayed; reflexivity |].
        split; [intros C; contradiction |].
        split; [intros _ [_ N]; contradiction | intros _ _; reflexivity].
      * rewrite orb_true_r.
        exists "Gender is required and must be 'male' or 'female'".
        split; [reflexivity |].
        split; [intros C; contradiction |].
        split; [intros _ _; reflexivity | intros _ [C|C]; contradiction].
Qed.

(** One candidate and all checked fields present: the [try] block is
    entered once, with the breed id, label and key of that candidate and
    the fields as given; its reply is returned, and an exception in that
    exchange becomes a 500 with the exception's text.  State code, pet
    name and e-mail are not checked, nor is the value of the spayed
    flag. *)
Theorem policy_quotes (sp q b l k : string) (s : session) (w' : world)
    (date_of_birth gender : string) (spayed : bool)
    (zip_code state_code pet_name email : string) :
  resolve_breed_code scorer sp q (process s) = (Ok (single b l k), w') ->
  date_of_birth <> "" ->
  PyStr.lower gender = "male" \/ PyStr.lower gender = "female" ->
  zip_code <> "" ->
  let request := {| q_date_of_birth := date_of_birth; q_gender := gender;
                    q_species_type := sp; q_spayed_or_neutured := spayed;
                    q_zip_code := zip_code; q_state_code := state_code;
                    q_pet_name := pet_name; q_email := email;
                    q_breed_id := b; q_label := l;
                    q_formatted_breed := k |} in
  let after := {| process := w';
                  quote_runs := quote_runs s ++ [request] |} in
  get_policy scorer R quote date_of_birth gender sp q spayed zip_code
    state_code pet_name email s
  = match quote request with
    | inr reply => (Ok (quoted reply), after)
    | inl text => (Raise (HTTPException 500 text), after)
    end.
Proof.
  intros H Hd Hg Hz request after.
  unfold get_policy, bindP, on_process. rewrite H.
  apply truthy_true in Hd, Hz. rewrite Hd, Hz.
  assert (Tg : PyStr.truthy gender = true).
  { rewrite <- truthy_lower. destruct Hg as [-> | ->]; reflexivity. }
  assert (Eg : String.eqb (PyStr.lower gender) "male"
               || String.eqb (PyStr.lower gender) "female" = true).
  { destruct Hg as [-> | ->]; reflexivity. }
  rewrite Tg, Eg. unfold run_quote. fold request.
  destruct spayed; cbn; now destruct (quote request).
Qed.

End PolicyFacts.

(** ** The further properties at concrete inputs *)

Lemma load_recovers_witness :
  load_breeds_cache offline
  = (Raise LoadError, {| disk := None; BREEDS_CACHE := None; reads := 1 |})
  /\ load_breeds_cache
       {| disk := Some kennel; BREEDS_CACHE := None; reads := 1 |}
     = (Ok kennel,
        {| disk := Some kennel; BREEDS_CACHE := Some kennel; reads := 2 |}).
Proof.
  assert (L : load_breeds_cache offline
              = (Raise LoadError,
                 {| disk := None; BREEDS_CACHE := None; reads := 1 |}))
    by reflexivity.
  split; [exact L |].
  exact (proj2 (load_recovers offline _ LoadError kennel L)).
Defined.

Lemma no_breed_twice_witness :
  NoDup (dict_keys twins)
  /\ NoDup (map Match.key
              (matches (search_breeds_on token_sort_ratio twins "poodel" "dog"))).
Proof.
  assert (N : NoDup (dict_keys twins)).
  { repeat constructor; simpl; intuition discriminate. }
  split; [exact N |].
  exact (no_breed_twice token_sort_ratio twins "poodel" "dog" N).
Defined.

Lemma no_eligible_not_found_witness :
  (forall k bd, In (k, bd) poodles ->
                eligible_id (species_prefix "cat") bd = None)
  /\ search_breeds_on token_sort_ratio poodles "" "cat"
     = {| matches := []; count := 0 |}
  /\ resolve_breed_code token_sort_ratio "Cat" "poodle" (cold poodles)
     = (Raise (HTTPException 404 (not_found_detail "poodle" "cat")),
        warm poodles).
Proof.
  assert (H : forall k bd, In (k, bd) poodles ->
                eligible_id (species_prefix "cat") bd = None).
  { intros k bd [E|[E|[]]]; injection E as _ <-; reflexivity. }
  assert (V : valid_species "Cat") by (right; reflexivity).
  assert (N : "poodle" <> "") by discriminate.
  split; [exact H |].
  destruct (no_eligible_not_found token_sort_ratio "cat" poodles H)
    as [H1 H2].
  split; [exact (H1 "") |].
  exact (H2 "Cat" "poodle" (cold poodles) (warm poodles) eq_refl V N eq_refl).
Defined.

Lemma label_resubmission_witness :
  valid_species "dog"
  /\ load_breeds_cache (cold poodles) = (Ok poodles, warm poodles)
  /\ In ("poodle", dog_record "Poodle" "101") poodles
  /\ eligible_id (species_prefix (PyStr.lower "dog"))
       (dog_record "Poodle" "101") = Some "101"
  /\ exists mt,
       mt <> fuzzy
       /\ In {| Match.key := "poodle";
                Match.label := label_of (dog_record "Poodle" "101");
                Match.breed_id := "101"; Match.match_type := mt;
                Match.score := None |}
            (matches (search_breeds_on token_sort_ratio poodles
                        (label_of (dog_record "Poodle" "101"))
                        (PyStr.lower "dog"))).
Proof.
  assert (V : valid_species "dog") by (left; reflexivity).
  assert (L : load_breeds_cache (cold poodles) = (Ok poodles, warm poodles))
    by reflexivity.
  assert (I : In ("poodle", dog_record "Poodle" "101") poodles)
    by (left; reflexivity).
  assert (E : eligible_id (species_prefix (PyStr.lower "dog"))
                (dog_record "Poodle" "101") = Some "101") by reflexivity.
  split; [exact V |]. split; [exact L |]. split; [exact I |].
  split; [exact E |].
  destruct (label_resubmission token_sort_ratio "dog" "poodle" "101"
              (dog_record "Poodle" "101") (cold poodles) (warm poodles)
              poodles V L I E) as (mt & H1 & H2 & _).
  exists mt. split; [exact H1 | exact H2].
Defined.

Lemma species_case_insensitive_witness :
  PyStr.lower "DoG" = PyStr.lower "dog"
  /\ resolve_breed_code token_sort_ratio "DoG" "poodle" (cold poodles)
     = resolve_breed_code token_sort_ratio "dog" "poodle" (cold poodles).
Proof.
  assert (H : PyStr.lower "DoG" = PyStr.lower "dog") by reflexivity.
  split; [exact H |].
  exact (species_case_insensitive token_sort_ratio "DoG" "dog" "poodle"
           (cold poodles) H).
Defined.


Lemma warm_resolve_read_only_witness :
  BREEDS_CACHE (warm kennel) = Some kennel
  /\ snd (resolve_breed_code token_sort_ratio "dog" "labrador"
            (warm kennel)) = warm kennel.
Proof.
  assert (C : BREEDS_CACHE (warm kennel) = Some kennel) by reflexivity.
  split; [exact C |].
  exact (proj1 (warm_resolve_read_only token_sort_ratio "dog" "labrador"
                  (warm kennel) kennel C)).
Defined.

Lemma inputs_checked_before_load_witness :
  BREEDS_CACHE offline = None /\ disk offline = None
  /\ valid_species "dog" /\ "poodle" <> ""
  /\ resolve_breed_code token_sort_ratio "dog" "poodle" offline
     = (Raise LoadError,
        {| disk := None; BREEDS_CACHE := None; reads := 1 |}).
Proof.
  assert (C : BREEDS_CACHE offline = None) by reflexivity.
  assert (D : disk offline = None) by reflexivity.
  assert (V : valid_species "dog") by (left; reflexivity).
  assert (N : "poodle" <> "") by discriminate.
  split; [exact C |]. split; [exact D |]. split; [exact V |].
  split; [exact N |].
  exact (proj1 (proj1 (inputs_checked_before_load token_sort_ratio "dog"
                         "poodle" offline C D) V N)).
Defined.

Lemma policy_breed_errors_first_witness :
  valid_species "dog" /\ "zzz" <> ""
  /\ load_breeds_cache (cold poodles) = (Ok poodles, warm poodles)
  /\ matches (search_breeds_on token_sort_ratio poodles "zzz"
                (PyStr.lower "dog")) = []
  /\ get_policy token_sort_ratio string quote_ok "" "" "dog" "zzz" true
       "" "" "" "" (fresh (cold poodles))
     = (Raise (HTTPException 404 (not_found_detail "zzz" "dog")),
        fresh (warm poodles)).
Proof.
  assert (V : valid_species "dog") by (left; reflexivity).
  assert (N : "zzz" <> "") by discriminate.
  assert (L : load_breeds_cache (cold poodles) = (Ok poodles, warm poodles))
    by reflexivity.
  assert (F : matches (search_breeds_on token_sort_ratio poodles "zzz"
                         (PyStr.lower "dog")) = [])
    by (vm_compute; reflexivity).
  split; [exact V |]. split; [exact N |]. split; [exact L |].
  split; [exact F |].
  exact (proj1 (proj2 (proj2 (policy_breed_errors_first token_sort_ratio
                                string quote_ok "dog" "zzz"
                                (fresh (cold poodles)) "" "" true
                                "" "" "" ""))) poodles (warm poodles)
           V N L F).
Defined.

Lemma policy_ambiguous_witness :
  valid_species "dog" /\ "poodle" <> ""
  /\ load_breeds_cache (cold poodles) = (Ok poodles, warm poodles)
  /\ 2 <= length (matches (search_breeds_on token_sort_ratio poodles "poodle"
                             (PyStr.lower "dog")))
  /\ exists options,
       get_policy token_sort_ratio string quote_ok "" "" "dog" "poodle" true
         "" "" "" "" (fresh (cold poodles))
       = (Ok (multiple_breeds_found
                "Found 2 breeds matching 'poodle'. Please specify which breed you meant."
                2 options rerun_instruction),
          fresh (warm poodles))
       /\ Forall2 (fun o m => Opt.label o = Match.label m
                              /\ Opt.key o = Match.key m
                              /\ Opt.match_type o = Match.match_type m)
                  options [poodle_exact; toy_poodle_partial].
Proof.
  assert (V : valid_species "dog") by (left; reflexivity).
  assert (N : "poodle" <> "") by discriminate.
  assert (L : load_breeds_cache (cold poodles) = (Ok poodles, warm poodles))
    by reflexivity.
  assert (G : 2 <= length (matches (search_breeds_on token_sort_ratio poodles
                                      "poodle" (PyStr.lower "dog"))))
    by (vm_compute; lia).
  split; [exact V |]. split; [exact N |]. split; [exact L |].
  split; [exact G |].
  exact (policy_ambiguous token_sort_ratio string quote_ok "dog" "poodle"
           (fresh (cold poodles)) (warm poodles) poodles "" "" true
           "" "" "" "" V N L G).
Defined.

Lemma policy_field_checks_witness :
  resolve_breed_code token_sort_ratio "dog" "labrador" (cold kennel)
  = (Ok (single "7" "Labrador Retriever" "labrador-retriever"), warm kennel)
  /\ ("2020-01-01" = ""
      \/ (PyStr.lower "unknown" <> "male" /\ PyStr.lower "unknown" <> "female")
      \/ "98101" = "")
  /\ get_policy token_sort_ratio string quote_ok "2020-01-01" "unknown" "dog"
       "labrador" true "98101" "WA" "Leo" "a@b.c" (fresh (cold kennel))
     = (Raise (HTTPException 400
                 "Gender is required and must be 'male' or 'female'"),
        fresh (warm kennel)).
Proof.
  assert (H : resolve_breed_code token_sort_ratio "dog" "labrador"
                (process (fresh (cold kennel)))
              = (Ok (single "7" "Labrador Retriever" "labrador-retriever"),
                 warm kennel)) by reflexivity.
  assert (B : "2020-01-01" = ""
              \/ (PyStr.lower "unknown" <> "male"
                  /\ PyStr.lower "unknown" <> "female")
              \/ "98101" = "")
    by (right; left; split; discriminate).
  assert (D : "2020-01-01" <> "") by discriminate.
  assert (G : PyStr.lower "unknown" <> "male"
              /\ PyStr.lower "unknown" <> "female") by (split; discriminate).
  split; [exact H |]. split; [exact B |].
  destruct (policy_field_checks token_sort_ratio string quote_ok "dog"
              "labrador" "7" "Labrador Retriever" "labrador-retriever"
              (fresh (cold kennel)) (warm kennel) "2020-01-01" "unknown"
              true "98101" "WA" "Leo" "a@b.c" H B)
    as (detail & E & _ & Hg & _).
  rewrite <- (Hg D G). exact E.
Defined.

Lemma policy_quotes_witness :
  resolve_breed_code token_sort_ratio "dog" "labrador" (cold kennel)
  = (Ok (single "7" "Labrador Retriever" "labrador-retriever"), warm kennel)
  /\ "2020-01-01" <> ""
  /\ (PyStr.lower "FEMALE" = "male" \/ PyStr.lower "FEMALE" = "female")
  /\ "98101" <> ""
  /\ get_policy token_sort_ratio string quote_ok "2020-01-01" "FEMALE" "dog"
       "labrador" false "98101" "" "" "" (fresh (cold kennel))
     = (Ok (quoted "7"),
        {| process := warm kennel;
           quote_runs :=
             [ {| q_date_of_birth := "2020-01-01"; q_gender := "FEMALE";
                  q_species_type := "dog"; q_spayed_or_neutured := false;
                  q_zip_code := "98101"; q_state_code := "";
                  q_pet_name := ""; q_email := ""; q_breed_id := "7";
                  q_label := "Labrador Retriever";
                  q_formatted_breed := "labrador-retriever" |} ] |}).
Proof.
  assert (H : resolve_breed_code token_sort_ratio "dog" "labrador"
                (process (fresh (cold kennel)))
              = (Ok (single "7" "Labrador Retriever" "labrador-retriever"),
                 warm kennel)) by reflexivity.
  assert (D : "2020-01-01" <> "") by discriminate.
  assert (G : PyStr.lower "FEMALE" = "male" \/ PyStr.lower "FEMALE" = "female")
    by (right; reflexivity).
  assert (Z : "98101" <> "") by discriminate.
  split; [exact H |]. split; [exact D |]. split; [exact G |].
  split; [exact Z |].
  exact (policy_quotes token_sort_ratio string quote_ok "dog" "labrador" "7"
           "Labrador Retriever" "labrador-retriever" (fresh (cold kennel))
           (warm kennel) "2020-01-01" "FEMALE" false "98101" "" "" ""
           H D G Z).
Defined.
